(** * ocr-invoice: the text-to-fields extraction helpers

    A shallow embedding of the parsing helpers of
    [netlify/functions/ocr-invoice.js] (the revision whose notes are built
    from [formatPaintItems], [extractPaintLinesFallback] and a raw excerpt),
    and the properties the specification states about them.

    Conventions of the embedding.
    - A JavaScript string is a list of code units.  The development covers
      the code units below 256 (ASCII and Latin-1), held in [ascii].
    - [undefined] and [null] are [None] of an option type; the comment at
      each use says which.
    - A method call on [undefined] throws a [TypeError]: computations that
      contain such a call live in the monad [js], whose values are
      [Ok v] (normal completion) and [Throw] (abrupt completion).
    - A number produced by [parseFloat] is [NaN] or [Num q], [q] being the
      exact rational value of the decimal literal that was read.  The
      rounding of that value to a binary64 float is not modelled.
    - An array index is an integer of [Z]; [-1] is the "not found" value the
      source uses. *)

From Stdlib Require Import Ascii String ZArith NArith QArith Bool Lia List.
Import ListNotations.

Close Scope Q_scope.
Set Implicit Arguments.

(** ** Strings *)

Definition jsstring := list ascii.

(** A string literal of the source. *)
Definition str (s : string) : jsstring := list_ascii_of_string s.

Definition code_of (c : ascii) : N := N_of_ascii c.

Definition between (lo hi : N) (c : ascii) : bool :=
  ((lo <=? code_of c) && (code_of c <=? hi))%N.

(** [\d] *)
Definition is_digit (c : ascii) : bool := between 48 57 c.

(** [[A-Za-z]] *)
Definition is_letter (c : ascii) : bool := between 65 90 c || between 97 122 c.

(** [[A-Za-z0-9]] *)
Definition is_alnum (c : ascii) : bool := is_letter c || is_digit c.

(** [\s], and the characters [trim] strips: TAB, LF, VT, FF, CR, SP, NBSP. *)
Definition is_space (c : ascii) : bool :=
  between 9 13 c || (code_of c =? 32)%N || (code_of c =? 160)%N.

Definition is_char (x c : ascii) : bool := Ascii.eqb x c.

(** [String.prototype.toLowerCase] on one code unit: A-Z, and the Latin-1
    capitals U+00C0..U+00DE except the multiplication sign U+00D7. *)
Definition lower_char (c : ascii) : ascii :=
  if between 65 90 c then ascii_of_N (code_of c + 32)
  else if between 192 222 c && negb (code_of c =? 215)%N
       then ascii_of_N (code_of c + 32)
  else c.

Definition toLowerCase (s : jsstring) : jsstring := map lower_char s.

(** Canonicalize of the regular-expression flag [i]: the upper-case image of
    a code unit when that image is a single code unit of the same range. *)
Definition canonicalize (c : ascii) : ascii :=
  if between 97 122 c then ascii_of_N (code_of c - 32)
  else if between 224 254 c && negb (code_of c =? 247)%N
       then ascii_of_N (code_of c - 32)
  else c.

(** A pattern character under flag [i]. *)
Definition ci (x c : ascii) : bool :=
  Ascii.eqb (canonicalize c) (canonicalize x).

Fixpoint str_eqb (a b : jsstring) : bool :=
  match a, b with
  | [], [] => true
  | x :: a', y :: b' => Ascii.eqb x y && str_eqb a' b'
  | _, _ => false
  end.

Definition is_empty (s : jsstring) : bool :=
  match s with [] => true | _ => false end.

(** [s.startsWith(p)] *)
Fixpoint startsWith (s p : jsstring) {struct p} : bool :=
  match p, s with
  | [], _ => true
  | x :: p', y :: s' => Ascii.eqb x y && startsWith s' p'
  | _ :: _, [] => false
  end.

(** [s.includes(p)] *)
Fixpoint includes (s p : jsstring) : bool :=
  startsWith s p ||
  match s with
  | [] => false
  | _ :: s' => includes s' p
  end.

(** [arr.includes(x)] on an array of strings *)
Definition arr_includes (arr : list jsstring) (x : jsstring) : bool :=
  existsb (str_eqb x) arr.

Fixpoint trim_start (s : jsstring) : jsstring :=
  match s with
  | c :: s' => if is_space c then trim_start s' else s
  | [] => []
  end.

(** [s.trim()] *)
Definition trim (s : jsstring) : jsstring :=
  rev (trim_start (rev (trim_start s))).

(** [arr.join(sep)] *)
Fixpoint join (sep : jsstring) (arr : list jsstring) : jsstring :=
  match arr with
  | [] => []
  | [x] => x
  | x :: rest => x ++ sep ++ join sep rest
  end.

(** [s.split(c)] for a one-character separator: the pieces between the
    occurrences of [c]; the empty string gives one empty piece. *)
Fixpoint split_aux (c : ascii) (s acc : jsstring) : list jsstring :=
  match s with
  | [] => [rev acc]
  | x :: s' =>
      if Ascii.eqb x c then rev acc :: split_aux c s' []
      else split_aux c s' (x :: acc)
  end.

Definition split_char (c : ascii) (s : jsstring) : list jsstring :=
  split_aux c s [].

(** [text.split(/\r?\n/)]: the separator is LF, or CR LF taken together. *)
Fixpoint split_lines_aux (s acc : jsstring) : list jsstring :=
  match s with
  | [] => [rev acc]
  | x :: s' =>
      if is_char "010" x then rev acc :: split_lines_aux s' []
      else
        match s' with
        | y :: s'' =>
            if is_char "013" x && is_char "010" y
            then rev acc :: split_lines_aux s'' []
            else split_lines_aux s' (x :: acc)
        | [] => split_lines_aux s' (x :: acc)
        end
  end.

Definition split_lines (text : jsstring) : list jsstring :=
  split_lines_aux text [].

(** [s.replace(/\s+/g, " ")]: every maximal run of white space becomes one
    space.  [in_run] tells that the previous character was white space,
    whose run has been replaced already. *)
Fixpoint collapse_aux (in_run : bool) (s : jsstring) : jsstring :=
  match s with
  | [] => []
  | c :: s' =>
      if is_space c
      then if in_run then collapse_aux true s'
           else " "%char :: collapse_aux true s'
      else c :: collapse_aux false s'
  end.

Definition collapse_spaces (s : jsstring) : jsstring := collapse_aux false s.

(** ** Regular expressions

    The fragment of the pattern language the source uses: character classes,
    greedy bounded repetition of a character class ([\s*], [\d{3,5}], [\$?],
    [[\d,]+]), sequence, alternation and numbered capture groups.  The
    anchors [^] and [$] occur in the source only around a whole pattern;
    [re_test_whole] is the test for such a pattern. *)

Inductive regex : Type :=
| Eps
| Chr (p : ascii -> bool)
| Rep (p : ascii -> bool) (lo : nat) (hi : option nat)
| Seq (r1 r2 : regex)
| Alt (r1 r2 : regex)
| Grp (n : nat) (r : regex).

(** The characters of a literal, one after the other, under flag [i]. *)
Fixpoint lit_i (s : jsstring) : regex :=
  match s with
  | [] => Eps
  | [c] => Chr (ci c)
  | c :: s' => Seq (Chr (ci c)) (lit_i s')
  end.

Definition star (p : ascii -> bool) : regex := Rep p 0 None.
Definition plus (p : ascii -> bool) : regex := Rep p 1 None.
Definition opt (p : ascii -> bool) : regex := Rep p 0 (Some 1).
Definition times (p : ascii -> bool) (lo hi : nat) : regex := Rep p lo (Some hi).

(** The captures of a match: the last entry pushed for a group number is
    the group's value; a group without entry is [undefined]. *)
Definition captures := list (nat * jsstring).

Fixpoint capture (n : nat) (c : captures) : option jsstring :=
  match c with
  | [] => None
  | (m, g) :: c' => if Nat.eqb m n then Some g else capture n c'
  end.

(** What was consumed between the input [s] and its suffix [s']. *)
Definition consumed (s s' : jsstring) : jsstring :=
  firstn (length s - length s') s.

Definition room (hi : option nat) : bool :=
  match hi with
  | Some 0 => false
  | _ => true
  end.

Section Matcher.
Variable R : Type.

(** Greedy repetition with backtracking: take one more character while the
    class and the upper bound allow it; give characters back one at a
    time when the rest of the pattern fails, down to the lower bound. *)
Fixpoint rep (p : ascii -> bool) (lo : nat) (hi : option nat)
         (s : jsstring) (k : jsstring -> option R) : option R :=
  let stop := if Nat.eqb lo 0 then k s else None in
  match s with
  | x :: s' =>
      if p x && room hi then
        match rep p (pred lo) (option_map pred hi) s' k with
        | Some v => Some v
        | None => stop
        end
      else stop
  | [] => stop
  end.

(** The backtracking matcher, from the start of [s], in continuation
    passing style: [k] is the rest of the pattern. *)
Fixpoint bt (r : regex) (s : jsstring) (c : captures)
         (k : jsstring -> captures -> option R) : option R :=
  match r with
  | Eps => k s c
  | Chr p =>
      match s with
      | x :: s' => if p x then k s' c else None
      | [] => None
      end
  | Rep p lo hi => rep p lo hi s (fun s' => k s' c)
  | Seq r1 r2 => bt r1 s c (fun s' c' => bt r2 s' c' k)
  | Alt r1 r2 =>
      match bt r1 s c k with
      | Some v => Some v
      | None => bt r2 s c k
      end
  | Grp n r' => bt r' s c (fun s' c' => k s' ((n, consumed s s') :: c'))
  end.
End Matcher.

(** [s.match(r)] for a pattern without flag [g]: the leftmost match, as the
    matched text and the captures; [None] is [null]. *)
Fixpoint re_match (r : regex) (s : jsstring) : option (jsstring * captures) :=
  match bt r s [] (fun s' c => Some (consumed s s', c)) with
  | Some m => Some m
  | None =>
      match s with
      | [] => None
      | _ :: s' => re_match r s'
      end
  end.

(** [r.test(s)] *)
Definition re_test (r : regex) (s : jsstring) : bool :=
  match re_match r s with Some _ => true | None => false end.

(** [/^r$/.test(s)]: the match starts at the first character and ends at the
    last. *)
Definition re_test_whole (r : regex) (s : jsstring) : bool :=
  match bt r s [] (fun s' _ => if is_empty s' then Some true else None) with
  | Some _ => true
  | None => false
  end.

(** The strings a pattern matches. *)
Inductive lang : regex -> jsstring -> Prop :=
| L_eps : lang Eps []
| L_chr p x : p x = true -> lang (Chr p) [x]
| L_rep p lo hi s :
    forallb p s = true -> lo <= length s ->
    (forall h, hi = Some h -> length s <= h) ->
    lang (Rep p lo hi) s
| L_seq r1 r2 s1 s2 : lang r1 s1 -> lang r2 s2 -> lang (Seq r1 r2) (s1 ++ s2)
| L_alt_l r1 r2 s : lang r1 s -> lang (Alt r1 r2) s
| L_alt_r r1 r2 s : lang r2 s -> lang (Alt r1 r2) s
| L_grp n r s : lang r s -> lang (Grp n r) s.

(** A pattern occurs in a text when some substring of the text is one of
    the strings it matches. *)
Definition occurs (r : regex) (s : jsstring) : Prop :=
  exists pre mid post, s = pre ++ mid ++ post /\ lang r mid.

Declare Scope regex_scope.
Delimit Scope regex_scope with re.
Bind Scope regex_scope with regex.
Infix "~>" := Seq (at level 60, right associativity) : regex_scope.
Infix "<|>" := Alt (at level 65, right associativity) : regex_scope.

(** ** Completions, arrays and numbers *)

(** The completion of a computation: a value, or a thrown [TypeError]. *)
Inductive js (A : Type) : Type :=
| Ok (v : A)
| Throw.
Arguments Throw {A}.

Definition bind {A B : Type} (m : js A) (f : A -> js B) : js B :=
  match m with
  | Ok v => f v
  | Throw => Throw
  end.

Notation "x <- m ;; k" := (bind m (fun x => k))
  (at level 100, m at next level, right associativity).

(** The receiver of a method call: calling a method of [undefined] throws. *)
Definition receiver {A : Type} (v : option A) : js A :=
  match v with
  | Some x => Ok x
  | None => Throw
  end.

(** The argument of [RegExp.prototype.test]: converted to a string. *)
Definition to_string (v : option jsstring) : jsstring :=
  match v with
  | Some s => s
  | None => str "undefined"
  end.

(** The line feed, ["\n"]. *)
Definition nl : jsstring := ["010"%char].

(** [a || b] on strings: the empty string is the falsy one. *)
Definition or_str (a b : jsstring) : jsstring :=
  if is_empty a then b else a.

Definition len {A : Type} (arr : list A) : Z := Z.of_nat (length arr).

(** [arr[i]]; [None] is [undefined]. *)
Definition at_index {A : Type} (arr : list A) (i : Z) : option A :=
  if (i <? 0)%Z then None else nth_error arr (Z.to_nat i).

(** An argument of [slice] as a position in an array of length [n]: a
    negative argument counts from the end. *)
Definition clamp (n i : Z) : Z :=
  if (i <? 0)%Z then Z.max (n + i) 0 else Z.min i n.

(** [arr.slice(a, b)] *)
Definition slice {A : Type} (arr : list A) (a b : Z) : list A :=
  let k := clamp (len arr) a in
  let final := clamp (len arr) b in
  firstn (Z.to_nat (final - k)) (skipn (Z.to_nat k) arr).

(** [arr.slice(a)] *)
Definition slice_from {A : Type} (arr : list A) (a : Z) : list A :=
  slice arr a (len arr).

(** [arr.findIndex(p)] *)
Fixpoint findIndex_from {A : Type} (p : A -> bool) (arr : list A) (i : Z) : Z :=
  match arr with
  | [] => (-1)%Z
  | x :: arr' => if p x then i else findIndex_from p arr' (i + 1)%Z
  end.

Definition findIndex {A : Type} (p : A -> bool) (arr : list A) : Z :=
  findIndex_from p arr 0%Z.

(** [for (let i = lo; i < hi; i++) body], the body leaving the loop (by
    [break] or [return]) with a result [Some r], or going on to the next
    index with [None].  [n] is the number of indices left. *)
Fixpoint loop_from {A : Type} (body : Z -> js (option A)) (i : Z) (n : nat)
  : js (option A) :=
  match n with
  | O => Ok None
  | S n' =>
      r <- body i ;;
      match r with
      | Some v => Ok (Some v)
      | None => loop_from body (i + 1)%Z n'
      end
  end.

Definition for_range {A : Type} (lo hi : Z) (body : Z -> js (option A))
  : js (option A) :=
  loop_from body lo (Z.to_nat (hi - lo)).

Inductive jsnum : Type :=
| NaN
| Num (q : Q).

Definition isNaN (n : jsnum) : bool :=
  match n with NaN => true | Num _ => false end.

(** The longest prefix of digits, and what follows it. *)
Fixpoint span_digits (s : jsstring) : jsstring * jsstring :=
  match s with
  | c :: s' =>
      if is_digit c then let (ds, r) := span_digits s' in (c :: ds, r)
      else ([], s)
  | [] => ([], [])
  end.

Fixpoint digits_value (acc : N) (ds : jsstring) : N :=
  match ds with
  | [] => acc
  | d :: ds' => digits_value (10 * acc + (code_of d - 48))%N ds'
  end.

(** The value of the decimal literal [ip.fp]. *)
Definition decimal (ip fp : jsstring) : Q :=
  Qred (Qmake (Z.of_N (digits_value 0 (ip ++ fp)))
              (Z.to_pos (10 ^ Z.of_nat (length fp)))).

(** [parseFloat(s)] for the strings the callers pass, which hold digits and
    dots only: the longest prefix that is a decimal literal ([12], [12.],
    [12.5], [.5]) is read; there is none when the string is empty or
    starts with a dot that no digit follows.  Signs, exponents, [Infinity]
    and leading white space cannot occur in those strings. *)
Definition parseFloat (s : jsstring) : jsnum :=
  let (ip, r) := span_digits s in
  match r with
  | c :: r' =>
      if is_char "." c then
        let (fp, _) := span_digits r' in
        if is_empty ip && is_empty fp then NaN else Num (decimal ip fp)
      else if is_empty ip then NaN else Num (decimal ip [])
  | [] => if is_empty ip then NaN else Num (decimal ip [])
  end.

(** ** The patterns of the source *)

Section Patterns.
Local Open Scope re.

(** [/paint/i] *)
Definition re_paint : regex := lit_i (str "paint").

(** [/\d/] *)
Definition re_digit : regex := Chr is_digit.

(** [/(pint|quart|gallon|pt|qt|gal)/i] *)
Definition re_unit_word : regex :=
  Grp 1 (lit_i (str "pint") <|> lit_i (str "quart") <|> lit_i (str "gallon")
         <|> lit_i (str "pt") <|> lit_i (str "qt") <|> lit_i (str "gal")).

(** [/^wa\d{3,5}$/i], without its anchors *)
Definition re_wa : regex := lit_i (str "wa") ~> times is_digit 3 5.

(** [/^[A-Za-z0-9]{2,6}$/], without its anchors *)
Definition re_short : regex := times is_alnum 2 6.

(** [/\d+\.\d{2}/] *)
Definition re_price : regex :=
  plus is_digit ~> Chr (is_char ".") ~> times is_digit 2 2.

(** [/Invoice\s*#\s*([0-9]+)/i] *)
Definition re_invoice : regex :=
  lit_i (str "Invoice") ~> star is_space ~> Chr (is_char "#")
  ~> star is_space ~> Grp 1 (plus is_digit).

(** [[\d,]+\.\d{2}] *)
Definition re_amount : regex :=
  plus (fun c => is_digit c || is_char "," c)
  ~> Chr (is_char ".") ~> times is_digit 2 2.

(** [/Total\s*\$?\s*([\d,]+\.\d{2})/i] *)
Definition re_total : regex :=
  lit_i (str "Total") ~> star is_space ~> opt (is_char "$")
  ~> star is_space ~> Grp 1 re_amount.

(** [/(amount due|balance due)\s*\$?\s*([\d,]+\.\d{2})/i] *)
Definition re_due : regex :=
  Grp 1 (lit_i (str "amount due") <|> lit_i (str "balance due"))
  ~> star is_space ~> opt (is_char "$") ~> star is_space ~> Grp 2 re_amount.
End Patterns.

(** ** Header fields *)

(** [text.split(/\r?\n/).map((l) => l.trim()).filter(Boolean)] *)
Definition lines_of (text : jsstring) : list jsstring :=
  filter (fun l => negb (is_empty l)) (map trim (split_lines text)).

(** The test of [extractSupplier] that makes it skip a line. *)
Definition skip_line (lower : jsstring) : bool :=
  includes lower (str "invoice") ||
  includes lower (str "bill to") ||
  includes lower (str "ship to") ||
  includes lower (str "date") ||
  includes lower (str "total") ||
  includes lower (str "www") ||
  includes lower (str ".com") ||
  includes lower (str "ga").

(** [(raw.match(/[A-Za-z]/g) || []).length] *)
Definition letters (raw : jsstring) : Z := len (filter is_letter raw).

Definition extractSupplier (text : jsstring) : js jsstring :=
  let lines := lines_of text in
  found <- for_range 0 (Z.min (len lines) 10) (fun i =>
    raw <- receiver (at_index lines i) ;;
    let lower := toLowerCase raw in
    if skip_line lower then Ok None
    else if (letters raw >=? 4)%Z then Ok (Some raw)
    else Ok None) ;;
  match found with
  | Some raw => Ok raw
  | None => Ok (str "")
  end.

(** The result is a string or [undefined] ([None]): [m[1]] is returned as it
    is. *)
Definition extractInvoiceNumber (text : jsstring) : option jsstring :=
  match re_match re_invoice text with
  | Some (_, m) => capture 1 m
  | None =>
      let fallback :=
        find (fun l => includes (toLowerCase l) (str "invoice"))
             (split_lines text) in
      match fallback with
      | Some l => Some (or_str l (str ""))
      | None => Some (str "")
      end
  end.

(** [s.replace(/,/g, "")] *)
Definition drop_commas (s : jsstring) : jsstring :=
  filter (fun c => negb (is_char "," c)) s.

(** The result is a number or [null] ([None]). *)
Definition extractTotal (text : jsstring) : js (option jsnum) :=
  match re_match re_total text with
  | Some (_, m) =>
      g <- receiver (capture 1 m) ;;
      Ok (Some (parseFloat (drop_commas g)))
  | None =>
      match re_match re_due text with
      | Some (_, alt) =>
          g <- receiver (capture 2 alt) ;;
          Ok (Some (parseFloat (drop_commas g)))
      | None => Ok None
      end
  end.

(** ** Paint lines *)

Definition normalizeUnit (u : jsstring) : jsstring :=
  let l := toLowerCase u in
  if startsWith l (str "pint") || str_eqb l (str "pt") then str "Pint"
  else if startsWith l (str "quart") || str_eqb l (str "qt") then str "Quart"
  else if startsWith l (str "gallon") || str_eqb l (str "gal") then str "Gallon"
  else u.

Definition unitWords : list jsstring :=
  map str ["pint"; "pints"; "pt"; "quart"; "quarts"; "qt";
           "gallon"; "gallons"; "gal"]%string.

Definition brandWords : list jsstring :=
  map str ["mipa"; "ppg"; "basf"; "sherwin"; "dupont"; "spi"; "standox"]%string.

(** The [qty] of an item: a number, or the empty string. *)
Inductive qty_value : Type :=
| QNum (n : jsnum)
| QBlank.

Record item : Type := {
  qty : qty_value;
  unit : jsstring;
  make : jsstring;
  code : jsstring;
  color : jsstring
}.

(** [tok.replace(/[^\d.]/g, "")] *)
Definition cleaned_of (tok : jsstring) : jsstring :=
  filter (fun c => is_digit c || is_char "." c) tok.

(** Step 1: the quantity loop.  [None] stands for the initial
    [qtyIdx = -1], [qty = null]. *)
Definition find_qty (tokens : list jsstring) (startIdx : Z)
  : js (option (Z * jsnum)) :=
  for_range (startIdx + 1) (Z.min (len tokens) (startIdx + 6)) (fun i =>
    tok <- receiver (at_index tokens i) ;;
    let cleaned := cleaned_of tok in
    if is_empty cleaned then Ok None
    else
      let num := parseFloat cleaned in
      if negb (isNaN num) then Ok (Some (i, num)) else Ok None).

(** Step 2: the unit loop.  [None] stands for the initial [unitIdx = -1],
    [unit = ""]. *)
Definition find_unit (tokens : list jsstring) (qtyIdx : Z)
  : js (option (Z * jsstring)) :=
  for_range (qtyIdx + 1) (Z.min (len tokens) (qtyIdx + 4)) (fun i =>
    tok <- receiver (at_index tokens i) ;;
    let low := toLowerCase tok in
    if arr_includes unitWords low then Ok (Some (i, tok)) else Ok None).

(** One loop of step 3: the first index from [i] on whose token passes
    [test]; [n] is the number of indices left. *)
Fixpoint scan_code (test : jsstring -> bool) (tokens : list jsstring)
         (i : Z) (n : nat) : option (Z * jsstring) :=
  match n with
  | O => None
  | S n' =>
      let tok := to_string (at_index tokens i) in
      if test tok then Some (i, tok)
      else scan_code test tokens (i + 1)%Z n'
  end.

(** Step 3: the WA pattern over the whole remainder first (3a), the short
    pattern only when that found nothing (3b).  The result is
    [(codeIdx, code)]. *)
Definition find_code (tokens : list jsstring) (searchFrom : Z)
  : Z * jsstring :=
  let n := Z.to_nat (len tokens - searchFrom) in
  match scan_code (re_test_whole re_wa) tokens searchFrom n with
  | Some r => r
  | None =>
      match scan_code (re_test_whole re_short) tokens searchFrom n with
      | Some r => r
      | None => ((-1)%Z, str "")
      end
  end.

(** [rawMakeTokens.filter(...)] *)
Definition drop_brands (toks : list jsstring) : list jsstring :=
  filter (fun t => negb (arr_includes brandWords (toLowerCase t))) toks.

(** Step 4 *)
Definition make_of (tokens : list jsstring) (startIdx qtyIdx unitIdx codeIdx : Z)
  : jsstring :=
  if negb (codeIdx =? -1)%Z && (codeIdx >? unitIdx + 1)%Z then
    let filtered := drop_brands (slice tokens (unitIdx + 1) codeIdx) in
    if (len filtered >? 0)%Z then join (str " ") filtered else str "Unknown"
  else if negb (codeIdx =? -1)%Z && (qtyIdx >? startIdx + 1)%Z then
    let filtered := drop_brands (slice tokens (startIdx + 1) qtyIdx) in
    if (len filtered >? 0)%Z then join (str " ") filtered else str "Unknown"
  else str "Unknown".

(** Step 5 *)
Definition color_of (tokens : list jsstring) (codeIdx : Z) : jsstring :=
  if negb (codeIdx =? -1)%Z && (codeIdx <? len tokens - 1)%Z then
    let colorTokens := slice_from tokens (codeIdx + 1) in
    let last := at_index colorTokens (len colorTokens - 1) in
    let colorTokens :=
      if re_test re_price (to_string last) then slice colorTokens 0 (-1)
      else colorTokens in
    join (str " ") colorTokens
  else str "".

(** The result is an item or [null] ([None]). *)
Definition parsePaintLineFlexible (line : jsstring) : js (option item) :=
  let norm := trim (collapse_spaces line) in
  if negb (re_test re_paint norm) then Ok None else
  let tokens := split_char " " norm in
  let pIdx := findIndex (fun t => str_eqb (toLowerCase t) (str "paint")) tokens in
  let startIdx := if (pIdx =? -1)%Z then 0%Z else pIdx in
  q <- find_qty tokens startIdx ;;
  let '(qtyIdx, qty) :=
    match q with
    | Some (i, num) => (i, Some num)
    | None => ((-1)%Z, None)
    end in
  if (qtyIdx =? -1)%Z then Ok None else
  u <- find_unit tokens qtyIdx ;;
  let '(unitIdx, unit) :=
    match u with
    | Some r => r
    | None => ((-1)%Z, str "")
    end in
  if is_empty unit then Ok None else
  let searchFrom := (unitIdx + 1)%Z in
  let '(codeIdx, code) := find_code tokens searchFrom in
  let make := make_of tokens startIdx qtyIdx unitIdx codeIdx in
  let color := color_of tokens codeIdx in
  let normalizedUnit := normalizeUnit unit in
  Ok (Some {| qty := match qty with Some num => QNum num | None => QBlank end;
              unit := or_str (or_str normalizedUnit unit) (str "");
              make := or_str make (str "Unknown");
              code := or_str code (str "");
              color := or_str color (str "") |}).

(** [extractPaintLinesFallback]: every line that mentions "paint", as it
    is. *)
Definition extractPaintLinesFallback (text : jsstring) : jsstring :=
  let lines := lines_of text in
  let items := filter (re_test re_paint) lines in
  join nl items.

(** The record the handler serializes. *)
Record summary : Type := {
  supplier : jsstring;
  invoice_number : option jsstring;
  cost : option jsnum;
  notes : jsstring
}.

Section Notes.
(** The conversion of a number to a string, which the template literal of
    [formatPaintItems] applies to [qty]. *)
Variable number_to_string : jsnum -> jsstring.

Definition qty_to_string (q : qty_value) : jsstring :=
  match q with
  | QNum n => number_to_string n
  | QBlank => str ""
  end.

(** [`${parsed.make} | ${parsed.code} | ${parsed.color} | ${parsed.qty} ${parsed.unit}`] *)
Definition format_item (parsed : item) : jsstring :=
  make parsed ++ str " | " ++ code parsed ++ str " | " ++ color parsed
  ++ str " | " ++ qty_to_string (qty parsed) ++ str " " ++ unit parsed.

(** The loop of [formatPaintItems] over the lines: the strings pushed to
    [parsedItems], in order. *)
Fixpoint format_lines (lines : list jsstring) : js (list jsstring) :=
  match lines with
  | [] => Ok []
  | line :: rest =>
      if negb (re_test re_paint line) then format_lines rest
      else if negb (re_test re_digit line) then format_lines rest
      else if negb (re_test re_unit_word line) then format_lines rest
      else
        parsed <- parsePaintLineFlexible line ;;
        items <- format_lines rest ;;
        match parsed with
        | Some it =>
            if negb (is_empty (code it)) then Ok (format_item it :: items)
            else Ok items
        | None => Ok items
        end
  end.

Definition formatPaintItems (text : jsstring) : js jsstring :=
  let lines := lines_of text in
  parsedItems <- format_lines lines ;;
  if (len parsedItems =? 0)%Z then Ok (str "")
  else Ok (join nl parsedItems).

(** The object [parsed] of the handler, built from a non-empty [text]. *)
Definition parsed_summary (text : jsstring) : js summary :=
  s <- extractSupplier text ;;
  let n := extractInvoiceNumber text in
  c <- extractTotal text ;;
  f <- formatPaintItems text ;;
  Ok {| supplier := s;
        invoice_number := n;
        cost := c;
        notes := or_str (or_str f (extractPaintLinesFallback text))
                        (firstn 800 text) |}.

(** The answer of the handler once the transcript is known: an empty
    transcript is answered by a fixed record, before anything is parsed. *)
Definition handler_summary (text : jsstring) : js summary :=
if is_empty text then
  Ok {| supplier := str "";
        invoice_number := Some (str "");
        cost := None;
        notes := str "No text detected" |}
else parsed_summary text.
End Notes.

(** ** Notions the properties are stated with *)

(** Group [n] takes part in every match of the pattern. *)
Fixpoint sets (n : nat) (r : regex) : bool :=
  match r with
  | Grp m r' => Nat.eqb m n || sets n r'
  | Seq r1 r2 => sets n r1 || sets n r2
  | Alt r1 r2 => sets n r1 && sets n r2
  | _ => false
  end.

(** The groups of a pattern, each with its own pattern. *)
Fixpoint groups (r : regex) : list (nat * regex) :=
  match r with
  | Grp n r' => (n, r') :: groups r'
  | Seq r1 r2 | Alt r1 r2 => groups r1 ++ groups r2
  | _ => []
  end.

Definition captures_in (P : nat -> jsstring -> Prop) (c : captures) : Prop :=
  forall n g, capture n c = Some g -> P n g.


(** A match of the pattern starts at the first character of the text. *)
Definition starts (r : regex) (s : jsstring) : Prop :=
  exists m post, s = m ++ post /\ lang r m.

(** The first [n] characters of the text hold no start of a match: a match,
    if any, starts at offset [n] or later. *)
Definition none_before (r : regex) (s : jsstring) (n : nat) : Prop :=
  forall i, i < n -> ~ starts r (skipn i s).

(** A unit token of one family, in any casing: it starts with the word of
    the family, or is its abbreviation. *)
Definition unit_family (word abbr : string) (u : jsstring) : Prop :=
  (exists rest, toLowerCase u = str word ++ rest) \/ toLowerCase u = str abbr.

(** The tokens [parsePaintLineFlexible] works on. *)
Definition tokens_of (line : jsstring) : list jsstring :=
  split_char " " (trim (collapse_spaces line)).

(** The anchor of the searches: the index of the token "paint", or the
    start of the line. *)
Definition anchor_of (tokens : list jsstring) : Z :=
  let pIdx := findIndex (fun t => str_eqb (toLowerCase t) (str "paint")) tokens in
  if (pIdx =? -1)%Z then 0%Z else pIdx.

(** A token in which the quantity loop reads a number. *)
Definition numeric (tok : jsstring) : bool :=
  negb (is_empty (cleaned_of tok)) && negb (isNaN (parseFloat (cleaned_of tok))).

(** The window of the quantity search holds no token with a number. *)
Definition no_number_in_window (line : jsstring) : Prop :=
  let tokens := tokens_of line in
  let a := anchor_of tokens in
  forall i tok,
    (a + 1 <= i < Z.min (len tokens) (a + 6))%Z ->
    at_index tokens i = Some tok -> numeric tok = false.

Definition digits : jsstring := str "0123456789".

Definition alphanumerics : jsstring :=
  str "ABCDEFGHIJKLMNOPQRSTUVWXYZabcdefghijklmnopqrstuvwxyz0123456789".

(** "WA" followed by three to five digits, in any casing. *)
Definition wa_code (tok : jsstring) : Prop :=
  exists w a ds,
    tok = w :: a :: ds /\
    (w = "w"%char \/ w = "W"%char) /\ (a = "a"%char \/ a = "A"%char) /\
    3 <= length ds <= 5 /\ Forall (fun d => In d digits) ds.

(** Two to six characters, letters and digits only. *)
Definition short_code (tok : jsstring) : Prop :=
  2 <= length tok <= 6 /\ Forall (fun c => In c alphanumerics) tok.

(** [tok] at index [i] is the first token from index [from] on that has
    the shape [P]. *)
Definition first_from (P : jsstring -> Prop) (tokens : list jsstring)
           (from i : Z) (tok : jsstring) : Prop :=
  (from <= i)%Z /\ at_index tokens i = Some tok /\ P tok /\
  forall j t, (from <= j < i)%Z -> at_index tokens j = Some t -> ~ P t.

(** No token from index [from] on has the shape [P]. *)
Definition none_from (P : jsstring -> Prop) (tokens : list jsstring)
           (from : Z) : Prop :=
  forall j t, (from <= j)%Z -> at_index tokens j = Some t -> ~ P t.

(** The markers of boilerplate lines. *)
Definition skip_markers : list jsstring :=
  map str ["invoice"; "bill to"; "ship to"; "date"; "total"; "www"; ".com";
           "ga"]%string.

(** A line the supplier scan accepts: it holds no marker, in any casing,
    and at least four letters. *)
Definition qualifies (line : jsstring) : bool :=
  forallb (fun m => negb (includes (toLowerCase line) m)) skip_markers
  && (4 <=? letters line)%Z.

(** The supplier as the specification words it: the first accepted line
    among the first ten, and failing that the first non-empty line of the
    document, or the empty string for an empty document. *)
Definition supplier_by_spec (text : jsstring) : jsstring :=
  match find qualifies (firstn 10 (lines_of text)) with
  | Some l => l
  | None => hd (str "") (lines_of text)
  end.

(** No line of the text mentions "paint". *)
Definition no_paint_line (text : jsstring) : Prop :=
  forall l, In l (lines_of text) -> re_test re_paint l = false.

(** What [trim] does at the end of a string. *)
Definition trim_end (s : jsstring) : jsstring := rev (trim_start (rev s)).

(** No white space at the start when [prev] is set, and no two white-space
    characters in a row. *)
Fixpoint spaced (prev : bool) (s : jsstring) : bool :=
  match s with
  | [] => true
  | c :: s' =>
      if is_space c then negb prev && spaced true s' else spaced false s'
  end.

(** What the pieces of [split(" ")] need to be non-empty: no space at the
    start when [prev] is set, no two spaces in a row, no space at the
    end. *)
Fixpoint well_spaced (prev : bool) (s : jsstring) : bool :=
  match s with
  | [] => negb prev
  | c :: s' =>
      if Ascii.eqb c " " then negb prev && well_spaced true s'
      else well_spaced false s'
  end.

(** The make as the specification words it: the span between the unit and
    the code without its brand words; when that is empty, the span between
    the keyword and the quantity without its brand words; when that is
    empty too, "Unknown". *)
Definition make_by_spec (tokens : list jsstring)
           (startIdx qtyIdx unitIdx codeIdx : Z) : jsstring :=
  match drop_brands (slice tokens (unitIdx + 1) codeIdx) with
  | (_ :: _) as near => join (str " ") near
  | [] =>
      match drop_brands (slice tokens (startIdx + 1) qtyIdx) with
      | (_ :: _) as far => join (str " ") far
      | [] => str "Unknown"
      end
  end.

(** ** The rest of the handler *)


(** ** The earlier revision of the paint line parser

    The second program text of [netlify/functions/ocr-invoice.js]: its
    header extractors and [normalizeUnit] are those above; its paint line
    parser, its formatter and its notes differ. *)

(** The code units, in order. *)
Definition all_code_units : jsstring := map ascii_of_nat (seq 0 256).

(** A character class under flag [i]: a character is in the class when its
    canonical form is that of a member. *)
Definition class_i (members : ascii -> bool) (c : ascii) : bool :=
  existsb (fun a => members a && Ascii.eqb (canonicalize a) (canonicalize c))
          all_code_units.

Module Rev2.

(** [/^[a-z0-9]{2,6}$/i], without its anchors *)
Definition re_short_i : regex :=
  times (class_i (fun c => between 97 122 c || is_digit c)) 2 6.

Definition codeRegexes : list regex := [re_wa; re_short_i].

(** Step 1: the quantity loop. *)
Definition find_qty (tokens : list jsstring) (startIdx : Z)
  : js (option (Z * jsnum)) :=
  for_range (startIdx + 1) (Z.min (len tokens) (startIdx + 6)) (fun i =>
    tok <- receiver (at_index tokens i) ;;
    let num := parseFloat (cleaned_of tok) in
    if negb (isNaN num) then Ok (Some (i, num)) else Ok None).

(** The loop over [unitWords] on the quantity token: the first unit word
    the token contains, and [unit] as it was when it contains none. *)
Definition embedded_unit (low unit : jsstring) : jsstring :=
  match find (fun uw => includes low uw) unitWords with
  | Some uw => uw
  | None => unit
  end.

(** The inner loop of step 3: one of the patterns of [codeRegexes] accepts
    the token. *)
Definition code_test (tok : jsstring) : bool :=
  existsb (fun re => re_test_whole re tok) codeRegexes.

(** Step 3: one loop over the remainder; the first token that passes
    [code_test] is taken. *)
Definition find_code (tokens : list jsstring) (searchFrom : Z)
  : Z * jsstring :=
  match scan_code code_test
                  tokens searchFrom (Z.to_nat (len tokens - searchFrom)) with
  | Some r => r
  | None => ((-1)%Z, str "")
  end.

(** The start of the searches that follow the unit: after the unit, after
    the quantity when there is no unit, after the anchor when there is
    neither. *)
Definition after_anchors (startIdx qtyIdx unitIdx : Z) : Z :=
  if negb (unitIdx =? -1)%Z then (unitIdx + 1)%Z
  else if negb (qtyIdx =? -1)%Z then (qtyIdx + 1)%Z
  else (startIdx + 1)%Z.

(** Step 4 *)
Definition make_of (tokens : list jsstring) (startIdx qtyIdx unitIdx codeIdx : Z)
  : jsstring :=
  if negb (codeIdx =? -1)%Z then
    let makeStart := after_anchors startIdx qtyIdx unitIdx in
    if (makeStart <? codeIdx)%Z
    then join (str " ") (slice tokens makeStart codeIdx)
    else if (qtyIdx >? startIdx + 1)%Z
    then join (str " ") (slice tokens (startIdx + 1) qtyIdx)
    else str "Unknown"
  else str "Unknown".

(** Step 5 *)
Definition color_of (tokens : list jsstring) (codeIdx : Z) : jsstring :=
  if negb (codeIdx =? -1)%Z && (codeIdx <? len tokens - 1)%Z
  then join (str " ") (slice_from tokens (codeIdx + 1))
  else str "".

(** The result is an item or [null] ([None]). *)
Definition parsePaintLineFlexible (line : jsstring) : js (option item) :=
  let norm := trim (collapse_spaces line) in
  if negb (re_test re_paint norm) then Ok None else
  let tokens := split_char " " norm in
  let pIdx := findIndex (fun t => str_eqb (toLowerCase t) (str "paint")) tokens in
  let startIdx := if (pIdx =? -1)%Z then 0%Z else pIdx in
  q <- find_qty tokens startIdx ;;
  let '(qtyIdx, qty) :=
    match q with
    | Some (i, num) => (i, Some num)
    | None => ((-1)%Z, None)
    end in
  u <- (if negb (qtyIdx =? -1)%Z then find_unit tokens qtyIdx else Ok None) ;;
  let '(unitIdx, unit) :=
    match u with
    | Some r => r
    | None => ((-1)%Z, str "")
    end in
  unit <- (if is_empty unit && negb (qtyIdx =? -1)%Z then
             tok <- receiver (at_index tokens qtyIdx) ;;
             Ok (embedded_unit (toLowerCase tok) unit)
           else Ok unit) ;;
  let searchFrom := after_anchors startIdx qtyIdx unitIdx in
  let '(codeIdx, code) := find_code tokens searchFrom in
  let make := make_of tokens startIdx qtyIdx unitIdx codeIdx in
  let color := color_of tokens codeIdx in
  let normalizedUnit := normalizeUnit (or_str unit (str "")) in
  Ok (Some {| qty := match qty with Some num => QNum num | None => QBlank end;
              unit := or_str (or_str normalizedUnit unit) (str "");
              make := or_str make (str "Unknown");
              code := or_str code (str "");
              color := or_str color (str "") |}).

(** [extractLineItems]: every line that mentions "paint", as it is. *)
Definition extractLineItems (text : jsstring) : jsstring :=
  let lines := lines_of text in
  let items := filter (re_test re_paint) lines in
  join nl items.

Section Notes.
Variable number_to_string : jsnum -> jsstring.

(** The loop of [formatPaintItems] over the lines. *)
Fixpoint format_lines (lines : list jsstring) : js (list jsstring) :=
  match lines with
  | [] => Ok []
  | line :: rest =>
      if negb (re_test re_paint line) then format_lines rest
      else
        parsed <- parsePaintLineFlexible line ;;
        items <- format_lines rest ;;
        match parsed with
        | Some it => Ok (format_item number_to_string it :: items)
        | None => Ok items
        end
  end.

Definition formatPaintItems (text : jsstring) : js jsstring :=
  let lines := lines_of text in
  parsedItems <- format_lines lines ;;
  if (len parsedItems =? 0)%Z then Ok (str "")
  else Ok (join nl parsedItems).

(** The object [parsed] of the handler of this revision. *)
Definition parsed_summary (text : jsstring) : js summary :=
  s <- extractSupplier text ;;
  let n := extractInvoiceNumber text in
  c <- extractTotal text ;;
  f <- formatPaintItems text ;;
  Ok {| supplier := s;
        invoice_number := n;
        cost := c;
        notes := or_str (or_str f (extractLineItems text))
                        (firstn 800 text) |}.
End Notes.

End Rev2.

(** ** Notions the further properties are stated with *)

(** The character classes of a pattern do not tell a character from its
    image by [f]. *)
Fixpoint class_stable (f : ascii -> ascii) (r : regex) : Prop :=
  match r with
  | Eps => True
  | Chr p | Rep p _ _ => forall c, p (f c) = p c
  | Seq r1 r2 | Alt r1 r2 => class_stable f r1 /\ class_stable f r2
  | Grp _ r' => class_stable f r'
  end.

(** The captures of a match, each mapped by [f]. *)
Definition map_captures (f : ascii -> ascii) (c : captures) : captures :=
  map (fun ng => (fst ng, map f (snd ng))) c.

(** A string that [split(/\r?\n/)] leaves in one piece and gives back when
    it is followed by a line feed: it holds no line feed and does not end
    with a carriage return. *)
Definition one_line (l : jsstring) : Prop :=
  ~ In "010"%char l /\ forall l0, l <> l0 ++ ["013"%char].

(** ** An older supplier scan

    [extractSupplier] of the older program text kept as [part_002]: another
    skip list, a test on the share of digits, and the first line of the
    document when no line is accepted. *)

Module Part2.

Definition skip_line (lower : jsstring) : bool :=
  includes lower (str "invoice") ||
  includes lower (str "bill to") ||
  includes lower (str "ship to") ||
  includes lower (str "amount due") ||
  includes lower (str "total") ||
  includes lower (str "page") ||
  includes lower (str "date") ||
  includes lower (str "tucker, ga") ||
  includes lower (str "www.") ||
  includes lower (str ".com").

(** [(line.match(/[a-z]/gi) || []).length] *)
Definition letters (line : jsstring) : Z :=
  len (filter (class_i (between 97 122)) line).

(** [(line.match(/\d/g) || []).length] *)
Definition digit_count (line : jsstring) : Z := len (filter is_digit line).

(** [digits > line.length * 0.5]: half an integer is exact, so the test is
    that of twice the digits against the length. *)
Definition mostly_digits (line : jsstring) : bool :=
  (2 * digit_count line >? len line)%Z.

(** The result is a string, or [undefined] ([None]) as [lines[0]] could
    be. *)
Definition extractSupplier (text : jsstring) : js (option jsstring) :=
  let lines := lines_of text in
  if (len lines =? 0)%Z then Ok (Some (str "")) else
  found <- for_range 0 (Z.min (len lines) 10) (fun i =>
    line <- receiver (at_index lines i) ;;
    let lower := toLowerCase line in
    if skip_line lower then Ok None
    else if (letters line <? 4)%Z then Ok None
    else if mostly_digits line then Ok None
    else Ok (Some line)) ;;
  match found with
  | Some line => Ok (Some line)
  | None => Ok (at_index lines 0)
  end.

(** A line this scan accepts. *)
Definition accepts (line : jsstring) : bool :=
  negb (skip_line (toLowerCase line)) && negb (letters line <? 4)%Z
  && negb (mostly_digits line).

End Part2.
(** * Properties *)

(** ** Strings *)

Lemma str_eqb_eq (a b : jsstring) : str_eqb a b = true <-> a = b.
Proof.
  revert b; induction a as [|x a IH]; intros [|y b]; simpl;
    try (split; [discriminate | congruence]); try tauto.
  rewrite andb_true_iff, Ascii.eqb_eq, IH.
  split; [intros [-> ->]; reflexivity | intros H; inversion H; auto].
Qed.

Lemma startsWith_app (s p : jsstring) :
  startsWith s p = true <-> exists r, s = p ++ r.
Proof.
  revert s; induction p as [|x p IH]; intros s; simpl.
  - split; [eauto | reflexivity].
  - destruct s as [|y s].
    + split; [discriminate | intros [r H]; discriminate].
    + rewrite andb_true_iff, Ascii.eqb_eq, IH. split.
      * intros [-> [r ->]]. eauto.
      * intros [r H]. inversion H. eauto.
Qed.

Lemma is_empty_true (s : jsstring) : is_empty s = true <-> s = [].
Proof. destruct s; simpl; split; congruence. Qed.

Lemma is_empty_false (s : jsstring) : is_empty s = false <-> s <> [].
Proof. destruct s; simpl; split; congruence. Qed.

Lemma or_str_nonempty (a b : jsstring) : a <> [] -> or_str a b = a.
Proof. destruct a; [congruence | reflexivity]. Qed.

(** ** Loops and arrays *)

Lemma at_index_Some {A : Type} (arr : list A) (i : Z) :
  (0 <= i < len arr)%Z -> exists x, at_index arr i = Some x.
Proof.
  unfold at_index, len. intros H.
  destruct (Z.ltb_spec i 0); [lia|].
  destruct (nth_error arr (Z.to_nat i)) eqn:E; [eauto|].
  apply nth_error_None in E. lia.
Qed.

Lemma at_index_range {A : Type} (arr : list A) (i : Z) (x : A) :
  at_index arr i = Some x -> (0 <= i < len arr)%Z.
Proof.
  unfold at_index, len. destruct (Z.ltb_spec i 0); [discriminate|].
  intros E. assert (Z.to_nat i < length arr) by (apply nth_error_Some; congruence).
  lia.
Qed.

Section Loops.
Context {A : Type} (body : Z -> js (option A)).

Lemma loop_from_total (i : Z) (n : nat) :
  (forall j, (i <= j < i + Z.of_nat n)%Z -> exists r, body j = Ok r) ->
  exists r, loop_from body i n = Ok r.
Proof.
  revert i; induction n as [|n IH]; intros i H; simpl; [eauto|].
  destruct (H i ltac:(lia)) as [r ->]. simpl.
  destruct r; [eauto|]. apply IH. intros j Hj. apply H. lia.
Qed.

Lemma loop_from_Some (i : Z) (n : nat) (v : A) :
  loop_from body i n = Ok (Some v) ->
  exists j, (i <= j < i + Z.of_nat n)%Z /\ body j = Ok (Some v) /\
            forall k, (i <= k < j)%Z -> body k = Ok None.
Proof.
  revert i; induction n as [|n IH]; intros i; simpl; [discriminate|].
  destruct (body i) as [[w|]|] eqn:E; simpl; try discriminate.
  - intros H; inversion H; subst. exists i. repeat split; try lia; auto.
  - intros H. destruct (IH _ H) as (j & Hj & Hb & Hk).
    exists j. repeat split; try lia; auto.
    intros k Hk'. destruct (Z.eq_dec k i) as [->|]; auto. apply Hk; lia.
Qed.

Lemma loop_from_None (i : Z) (n : nat) :
  loop_from body i n = Ok None ->
  forall k, (i <= k < i + Z.of_nat n)%Z -> body k = Ok None.
Proof.
  revert i; induction n as [|n IH]; intros i; simpl; [intros; lia|].
  destruct (body i) as [[w|]|] eqn:E; simpl; try discriminate.
  intros H k Hk. destruct (Z.eq_dec k i) as [->|]; auto. apply (IH _ H); lia.
Qed.

Lemma loop_from_all_None (i : Z) (n : nat) :
  (forall k, (i <= k < i + Z.of_nat n)%Z -> body k = Ok None) ->
  loop_from body i n = Ok None.
Proof.
  revert i; induction n as [|n IH]; intros i H; simpl; [reflexivity|].
  rewrite (H i) by lia. simpl. apply IH. intros; apply H; lia.
Qed.

Lemma loop_from_first (i : Z) (n : nat) (j : Z) (v : A) :
  (i <= j < i + Z.of_nat n)%Z -> body j = Ok (Some v) ->
  (forall k, (i <= k < j)%Z -> body k = Ok None) ->
  loop_from body i n = Ok (Some v).
Proof.
  revert i; induction n as [|n IH]; intros i Hj Hb Hk; simpl; [lia|].
  destruct (Z.eq_dec i j) as [->|Hne].
  - rewrite Hb. reflexivity.
  - rewrite (Hk i) by lia. simpl. apply IH; auto; try lia.
    intros; apply Hk; lia.
Qed.
End Loops.

(** ** The matcher against the language of a pattern *)

Lemma consumed_app (a b : jsstring) : consumed (a ++ b) b = a.
Proof.
  unfold consumed. rewrite length_app.
  replace (length a + length b - length b) with (length a) by lia.
  rewrite firstn_app, firstn_all, Nat.sub_diag. simpl. apply app_nil_r.
Qed.

Section Matcher_facts.
Context {R : Type}.

Lemma rep_sound p lo hi s (k : jsstring -> option R) v :
  rep p lo hi s k = Some v ->
  exists s1 s2, s = s1 ++ s2 /\ lang (Rep p lo hi) s1 /\ k s2 = Some v.
Proof.
  assert (Hstop : forall lo hi s,
    (if Nat.eqb lo 0 then k s else None) = Some v ->
    exists s1 s2, s = s1 ++ s2 /\ lang (Rep p lo hi) s1 /\ k s2 = Some v).
  { intros lo' hi' s'. destruct (Nat.eqb_spec lo' 0); [|discriminate].
    intros H. exists [], s'. repeat split; auto.
    constructor; simpl; auto; intros; lia. }
  revert lo hi; induction s as [|x s IH]; intros lo hi; simpl.
  - apply Hstop.
  - destruct (p x && room hi) eqn:E; [|apply Hstop].
    destruct (rep p (pred lo) (option_map pred hi) s k) eqn:E'; [|apply Hstop].
    intros H; inversion H; subst. apply andb_true_iff in E as [Hp Hroom].
    destruct (IH _ _ E') as (s1 & s2 & -> & HL & Hk).
    exists (x :: s1), s2. repeat split; auto.
    inversion HL as [| |? ? ? ? Hall Hlo Hhi| | | |]; subst.
    constructor; simpl.
    + now rewrite Hp.
    + lia.
    + intros h ->. destruct h; [discriminate|].
      specialize (Hhi h eq_refl). lia.
Qed.

Lemma rep_complete p lo hi s1 s2 (k : jsstring -> option R) :
  lang (Rep p lo hi) s1 -> k s2 <> None ->
  rep p lo hi (s1 ++ s2) k <> None.
Proof.
  intros HL Hk. inversion HL as [| |p' lo' hi' s' Hall Hlo Hhi| | | |]; subst.
  clear HL. revert lo hi Hlo Hhi.
  induction s1 as [|x s1 IH]; intros lo hi Hlo Hhi; simpl in *.
  - assert (lo = 0) as -> by lia.
    destruct s2 as [|y s2]; simpl; auto.
    destruct (p y && room hi); auto.
    destruct (rep p 0 (option_map pred hi) s2 k); auto; discriminate.
  - apply andb_true_iff in Hall as [Hp Hall]. rewrite Hp. simpl.
    assert (room hi = true) as ->.
    { destruct hi as [[|h]|]; auto. specialize (Hhi 0 eq_refl). lia. }
    specialize (IH Hall (pred lo) (option_map pred hi)).
    destruct (rep p (pred lo) (option_map pred hi) (s1 ++ s2) k);
      [discriminate|].
    exfalso. apply IH; auto; [lia|].
    intros h Hh. destruct hi as [h'|]; [|discriminate].
    inversion Hh; subst. specialize (Hhi h' eq_refl). lia.
Qed.

(** Soundness: a successful run splits the input into a string of the
    language and the rest, on which the continuation succeeded; the
    captures it hands over are substrings matched by their groups, and
    hold every group that takes part in each match. *)
Lemma bt_sound (P : nat -> jsstring -> Prop) r :
  forall s c (k : jsstring -> captures -> option R) v,
  (forall n r' g, In (n, r') (groups r) -> lang r' g -> P n g) ->
  captures_in P c ->
  bt r s c k = Some v ->
  exists s1 s2 c',
    s = s1 ++ s2 /\ lang r s1 /\ k s2 c' = Some v /\ captures_in P c' /\
    (forall n, capture n c <> None \/ sets n r = true -> capture n c' <> None).
Proof.
  induction r as [|p|p lo hi|r1 IH1 r2 IH2|r1 IH1 r2 IH2|m r IH];
    intros s c k v HP Hc H; simpl in *.
  - exists [], s, c. repeat split; auto; [constructor|].
    intros n [Hn|Hn]; [auto|discriminate].
  - destruct s as [|x s]; [discriminate|].
    destruct (p x) eqn:E; [|discriminate].
    exists [x], s, c. repeat split; auto; [now constructor|].
    intros n [Hn|Hn]; [auto|discriminate].
  - apply rep_sound in H as (s1 & s2 & -> & HL & Hk).
    exists s1, s2, c. repeat split; auto.
    intros n [Hn|Hn]; [auto|discriminate].
  - apply IH1 in H as (s1 & s2 & c1 & -> & HL1 & H & Hc1 & Hs1); auto.
    2:{ intros; eapply HP; eauto. apply in_or_app; eauto. }
    apply IH2 in H as (s3 & s4 & c2 & -> & HL2 & H & Hc2 & Hs2); auto.
    2:{ intros; eapply HP; eauto. apply in_or_app; eauto. }
    exists (s1 ++ s3), s4, c2. rewrite app_assoc. repeat split; auto.
    + now constructor.
    + intros n Hn. apply Hs2. rewrite orb_true_iff in Hn.
      destruct Hn as [Hn|[Hn|Hn]]; auto.
  - destruct (bt r1 s c k) eqn:E.
    + inversion H; subst.
      apply IH1 in E as (s1 & s2 & c1 & -> & HL1 & H' & Hc1 & Hs1); auto.
      2:{ intros; eapply HP; eauto. apply in_or_app; eauto. }
      exists s1, s2, c1. repeat split; auto; [now apply L_alt_l|].
      intros n Hn. apply Hs1. rewrite andb_true_iff in Hn. tauto.
    + apply IH2 in H as (s1 & s2 & c1 & -> & HL1 & H' & Hc1 & Hs1); auto.
      2:{ intros; eapply HP; eauto. apply in_or_app; eauto. }
      exists s1, s2, c1. repeat split; auto; [now apply L_alt_r|].
      intros n Hn. apply Hs1. rewrite andb_true_iff in Hn. tauto.
  - apply IH in H as (s1 & s2 & c1 & -> & HL1 & H' & Hc1 & Hs1); auto.
    2:{ intros; eapply HP; eauto. }
    rewrite consumed_app in H'.
    exists s1, s2, ((m, s1) :: c1). repeat split; auto.
    + now constructor.
    + intros n g. simpl. destruct (Nat.eqb_spec m n) as [->|_]; auto.
      intros Hg; inversion Hg; subst. eapply HP; eauto.
    + intros n Hn. simpl. destruct (Nat.eqb_spec m n) as [->|Hne];
        [discriminate|].
      apply Hs1. simpl in Hn. destruct Hn as [Hn|Hn]; auto.
Qed.

(** Completeness: when some prefix of the input is in the language and
    the continuation accepts what follows it, the run succeeds. *)
Lemma bt_complete r :
  forall s1 s2 (k : jsstring -> captures -> option R),
  lang r s1 -> (forall c', k s2 c' <> None) ->
  forall c, bt r (s1 ++ s2) c k <> None.
Proof.
  induction r as [|p|p lo hi|r1 IH1 r2 IH2|r1 IH1 r2 IH2|m r IH];
    intros s1 s2 k HL Hk c; simpl.
  - inversion HL; subst. apply Hk.
  - inversion HL as [|? ? Hp| | | | |]; subst. simpl. rewrite Hp. apply Hk.
  - apply rep_complete; auto.
  - inversion HL; subst. rewrite <- app_assoc.
    apply IH1; [assumption|]. intros c'. apply IH2; assumption.
  - inversion HL as [| | | |? ? ? HL1|? ? ? HL2|]; subst.
    + specialize (IH1 _ _ _ HL1 Hk c). destruct (bt r1 (s1 ++ s2) c k);
        congruence.
    + destruct (bt r1 (s1 ++ s2) c k); [discriminate|]. apply IH2; auto.
  - inversion HL; subst. apply IH; auto.
Qed.
End Matcher_facts.

Lemma bt_None_starts {R : Type} r s c (k : jsstring -> captures -> option R) :
  (forall s' c', k s' c' <> None) ->
  bt r s c k = None <-> ~ starts r s.
Proof.
  intros Hk. split.
  - intros H (m & post & -> & HL).
    now apply (@bt_complete R r m post k HL (Hk post) c).
  - intros H. destruct (bt r s c k) eqn:E; [|reflexivity].
    exfalso; apply H.
    apply (bt_sound (P := fun _ _ => True)) in E as (s1 & s2 & _ & -> & HL & _);
      [|auto|intros ? ? ?; auto].
    now exists s1, s2.
Qed.

Lemma occurs_nil_or_tail r x s :
  occurs r (x :: s) <-> starts r (x :: s) \/ occurs r s.
Proof.
  split.
  - intros (pre & mid & post & E & HL). destruct pre as [|y pre]; simpl in E.
    + left. exists mid, post. auto.
    + right. inversion E; subst. now exists pre, mid, post.
  - intros [(m & post & E & HL)|(pre & mid & post & -> & HL)].
    + exists [], m, post. auto.
    + exists (x :: pre), mid, post. auto.
Qed.

Lemma occurs_nil r : occurs r [] <-> starts r [].
Proof.
  split.
  - intros (pre & mid & post & E & HL).
    symmetry in E. apply app_eq_nil in E as [-> E].
    apply app_eq_nil in E as [-> ->]. now exists [], [].
  - intros (m & post & E & HL). now exists [], m, post.
Qed.

(** [match] finds nothing exactly when the pattern does not occur. *)
Lemma re_match_None r s : re_match r s = None <-> ~ occurs r s.
Proof.
  induction s as [|x s IH]; simpl.
  - rewrite occurs_nil.
    pose proof (bt_None_starts r [] []
                  (fun s' c => Some (consumed [] s', c))) as Hb.
    destruct (bt r [] [] _).
    + split; [discriminate|]. intros H. apply Hb in H; [discriminate|].
      discriminate.
    + split; auto. intros _. apply Hb; [discriminate|reflexivity].
  - rewrite occurs_nil_or_tail.
    pose proof (bt_None_starts r (x :: s) []
                  (fun s' c => Some (consumed (x :: s) s', c))) as Hb.
    destruct (bt r (x :: s) [] _).
    + split; [discriminate|]. intros H. exfalso.
      assert (Hs : ~ starts r (x :: s)) by tauto.
      apply Hb in Hs; discriminate.
    + assert (Hs : ~ starts r (x :: s)) by (apply Hb; [discriminate|reflexivity]).
      rewrite IH. tauto.
Qed.

(** What [match] returns: the leftmost match, with the captures of its
    groups. *)
Lemma re_match_Some (P : nat -> jsstring -> Prop) r s m c :
  (forall n r' g, In (n, r') (groups r) -> lang r' g -> P n g) ->
  re_match r s = Some (m, c) ->
  exists pre post,
    s = pre ++ m ++ post /\ lang r m /\ none_before r s (length pre) /\
    captures_in P c /\ (forall n, sets n r = true -> capture n c <> None).
Proof.
  intros HP. induction s as [|x s IH]; simpl.
  - destruct (bt r [] [] _) as [[m' c']|] eqn:E; [|discriminate].
    intros H; inversion H; subst.
    apply (bt_sound (P := P)) in E as (s1 & s2 & c1 & E0 & HL & Hk & Hc & Hs); auto.
    2:{ intros n g; discriminate. }
    inversion Hk; subst. rewrite E0, consumed_app.
    exists [], s2. repeat split; auto. intros i Hi; inversion Hi.
  - destruct (bt r (x :: s) [] _) as [[m' c']|] eqn:E.
    + intros H; inversion H; subst.
      apply (bt_sound (P := P)) in E as (s1 & s2 & c1 & E0 & HL & Hk & Hc & Hs); auto.
      2:{ intros n g; discriminate. }
      inversion Hk; subst. rewrite E0, consumed_app.
      exists [], s2. repeat split; auto. intros i Hi; inversion Hi.
    + intros H. destruct (IH H) as (pre & post & -> & HL & Hb & Hc & Hs).
      exists (x :: pre), post. repeat split; auto.
      intros [|i] Hi; simpl in *.
      * apply (bt_None_starts r (x :: pre ++ m ++ post) [] (fun s' c => Some (consumed (x :: pre ++ m ++ post) s', c)));
          [discriminate|assumption].
      * apply Hb. lia.
Qed.

Lemma re_test_occurs r s : re_test r s = true <-> occurs r s.
Proof.
  unfold re_test. destruct (re_match r s) as [[m c]|] eqn:E.
  - split; auto. intros _.
    apply (re_match_Some (fun _ _ => True) r s) in E as (pre & post & -> & HL & _);
      [|auto].
    now exists pre, m, post.
  - split; [discriminate|]. intros Ho. now apply re_match_None in E.
Qed.

Lemma re_test_whole_lang r s : re_test_whole r s = true <-> lang r s.
Proof.
  unfold re_test_whole.
  destruct (bt r s [] _) eqn:E.
  - split; auto. intros _.
    apply (bt_sound (P := fun _ _ => True)) in E
      as (s1 & s2 & c1 & -> & HL & Hk & _); [|auto|intros ? ? ?; auto].
    destruct s2; [|discriminate]. now rewrite app_nil_r.
  - split; [discriminate|]. intros HL. exfalso.
    rewrite <- (app_nil_r s) in E.
    revert E. apply bt_complete; auto. discriminate.
Qed.

(** [match] on a text whose first characters hold no start of a match goes
    on from the first place where one can start. *)
Lemma re_match_skip r pre t :
  none_before r (pre ++ t) (length pre) ->
  re_match r (pre ++ t) = 
  match re_match r t with
  | Some (m, c) => Some (m, c)
  | None => None
  end.
Proof.
  induction pre as [|x pre IH]; simpl; intros H.
  - destruct (re_match r t) as [[? ?]|]; reflexivity.
  - assert (E : bt r (x :: pre ++ t) []
               (fun s' c => Some (consumed (x :: pre ++ t) s', c)) = None).
    { apply bt_None_starts; [discriminate|]. apply (H 0). lia. }
    rewrite E. apply IH. intros i Hi. apply (H (S i)). lia.
Qed.

(** ** The anchors of a paint line *)

Lemma find_qty_Some tokens startIdx i num :
  find_qty tokens startIdx = Ok (Some (i, num)) ->
  (startIdx + 1 <= i < Z.min (len tokens) (startIdx + 6))%Z /\
  exists tok, at_index tokens i = Some tok /\ numeric tok = true /\
              num = parseFloat (cleaned_of tok).
Proof.
  unfold find_qty, for_range. intros H.
  apply loop_from_Some in H as (j & Hj & Hb & _).
  destruct (at_index tokens j) as [tok|] eqn:E; simpl in Hb; [|discriminate].
  unfold numeric.
  destruct (is_empty (cleaned_of tok)) eqn:Ee; [discriminate|].
  destruct (isNaN (parseFloat (cleaned_of tok))) eqn:En; simpl in Hb;
    [discriminate|].
  inversion Hb; subst. split; [lia|]. exists tok. rewrite Ee, En.
  repeat split; auto.
Qed.

Lemma find_unit_Some tokens qtyIdx i u :
  find_unit tokens qtyIdx = Ok (Some (i, u)) ->
  (qtyIdx + 1 <= i < Z.min (len tokens) (qtyIdx + 4))%Z /\
  at_index tokens i = Some u /\
  arr_includes unitWords (toLowerCase u) = true.
Proof.
  unfold find_unit, for_range. intros H.
  apply loop_from_Some in H as (j & Hj & Hb & _).
  destruct (at_index tokens j) as [tok|] eqn:E; cbn [bind receiver] in Hb;
    [|discriminate].
  destruct (arr_includes unitWords (toLowerCase tok)) eqn:Ei; [|discriminate].
  inversion Hb; subst. repeat split; auto; lia.
Qed.

Lemma unit_word_normalized u :
  arr_includes unitWords (toLowerCase u) = true ->
  normalizeUnit u = str "Pint" \/ normalizeUnit u = str "Quart" \/
  normalizeUnit u = str "Gallon".
Proof.
  unfold arr_includes, unitWords. simpl.
  rewrite !orb_true_iff, !str_eqb_eq. unfold normalizeUnit.
  intros [H|[H|[H|[H|[H|[H|[H|[H|[H|H]]]]]]]]]; try discriminate;
    rewrite H; vm_compute; auto.
Qed.

(** ** Claims *)

(** C3: on the line "Paint 0.5 Pint GM/CHEV WA8624 WHITE 85-26" the paint
    line parser returns the item with make "GM/CHEV", code "WA8624", color
    "WHITE 85-26", quantity 0.5 and unit "Pint". *)
Theorem parse_anchor_precedence_example :
  parsePaintLineFlexible (str "Paint 0.5 Pint GM/CHEV WA8624 WHITE 85-26")
  = Ok (Some {| qty := QNum (Num (1 # 2));
                unit := str "Pint";
                make := str "GM/CHEV";
                code := str "WA8624";
                color := str "WHITE 85-26" |}).
Proof. vm_compute. reflexivity. Qed.

(** C9: the unit normalizer lower-cases its token and matches by prefix: a
    token that starts with "pint" or is "pt", in any casing, becomes "Pint";
    likewise "quart"/"qt" become "Quart" and "gallon"/"gal" become
    "Gallon"; every other token comes back unchanged.  It is a total
    function. *)
Theorem normalizeUnit_prefix_rule (u : jsstring) :
  (unit_family "pint" "pt" u -> normalizeUnit u = str "Pint") /\
  (unit_family "quart" "qt" u -> normalizeUnit u = str "Quart") /\
  (unit_family "gallon" "gal" u -> normalizeUnit u = str "Gallon") /\
  (~ unit_family "pint" "pt" u -> ~ unit_family "quart" "qt" u ->
   ~ unit_family "gallon" "gal" u -> normalizeUnit u = u) /\
  map normalizeUnit (map str ["pint"; "pt"; "PINT"; "Pints"]%string)
  = map str ["Pint"; "Pint"; "Pint"; "Pint"]%string.
Proof.
  unfold unit_family, normalizeUnit. repeat split.
  - intros [[rest ->]| ->]; reflexivity.
  - intros [[rest ->]| ->]; reflexivity.
  - intros [[rest ->]| ->]; reflexivity.
  - intros Hp Hq Hg.
    destruct (startsWith (toLowerCase u) (str "pint")) eqn:E1.
    { exfalso; apply Hp; left. now apply startsWith_app. }
    destruct (str_eqb (toLowerCase u) (str "pt")) eqn:E2.
    { exfalso; apply Hp; right. now apply str_eqb_eq. }
    destruct (startsWith (toLowerCase u) (str "quart")) eqn:E3.
    { exfalso; apply Hq; left. now apply startsWith_app. }
    destruct (str_eqb (toLowerCase u) (str "qt")) eqn:E4.
    { exfalso; apply Hq; right. now apply str_eqb_eq. }
    destruct (startsWith (toLowerCase u) (str "gallon")) eqn:E5.
    { exfalso; apply Hg; left. now apply startsWith_app. }
    destruct (str_eqb (toLowerCase u) (str "gal")) eqn:E6.
    { exfalso; apply Hg; right. now apply str_eqb_eq. }
    reflexivity.
Qed.

Lemma normalizeUnit_prefix_rule_witness :
  unit_family "quart" "qt" (str "QUARTS") /\
  normalizeUnit (str "QUARTS") = str "Quart".
Proof.
  assert (H : unit_family "quart" "qt" (str "QUARTS")).
  { left. exists (str "s"). reflexivity. }
  split; [exact H|].
  exact (proj1 (proj2 (normalizeUnit_prefix_rule (str "QUARTS"))) H).
Defined.

(** C10: whenever the paint line parser returns an item, the unit of the
    item is one of "Pint", "Quart" and "Gallon". *)
Theorem parsed_unit_canonical (line : jsstring) (it : item) :
  parsePaintLineFlexible line = Ok (Some it) ->
  unit it = str "Pint" \/ unit it = str "Quart" \/ unit it = str "Gallon".
Proof.
  unfold parsePaintLineFlexible.
  destruct (re_test re_paint _); simpl; [|discriminate].
  destruct (find_qty _ _) as [[[qtyIdx num]|]|]; cbn [bind];
    try discriminate.
  destruct (qtyIdx =? -1)%Z; [discriminate|].
  destruct (find_unit _ qtyIdx) as [[[unitIdx u]|]|] eqn:EU; cbn [bind];
    try discriminate.
  apply find_unit_Some in EU as (_ & _ & Hu).
  apply unit_word_normalized in Hu.
  destruct (is_empty u); [discriminate|].
  destruct (find_code _ (unitIdx + 1)) as [codeIdx c].
  intros H; inversion H; subst; simpl.
  destruct Hu as [-> | [-> | ->]]; auto.
Qed.

Lemma parsed_unit_canonical_witness :
  parsePaintLineFlexible (str "Paint 2 Quarts k3g 122.00 122.00")
  = Ok (Some {| qty := QNum (Num 2%Q); unit := str "Quart";
                make := str "Unknown"; code := str "k3g";
                color := str "122.00" |}) /\
  (str "Quart" = str "Pint" \/ str "Quart" = str "Quart" \/
   str "Quart" = str "Gallon").
Proof.
  assert (H : parsePaintLineFlexible (str "Paint 2 Quarts k3g 122.00 122.00")
              = Ok (Some {| qty := QNum (Num 2%Q); unit := str "Quart";
                            make := str "Unknown"; code := str "k3g";
                            color := str "122.00" |})).
  { vm_compute. reflexivity. }
  split; [exact H|]. exact (parsed_unit_canonical _ H).
Defined.

Lemma findIndex_from_range {A : Type} (p : A -> bool) arr i :
  findIndex_from p arr i = (-1)%Z \/
  (i <= findIndex_from p arr i < i + len arr)%Z.
Proof.
  revert i; induction arr as [|x arr IH]; intros i; simpl; auto.
  unfold len in *; simpl length.
  destruct (p x); [right; lia|].
  destruct (IH (i + 1)%Z) as [->|H]; auto. right; lia.
Qed.

Lemma anchor_range tokens : (0 <= anchor_of tokens)%Z.
Proof.
  unfold anchor_of, findIndex.
  pose proof (findIndex_from_range
                (fun t => str_eqb (toLowerCase t) (str "paint")) tokens 0) as H.
  cbv zeta. revert H. generalize (findIndex_from
    (fun t => str_eqb (toLowerCase t) (str "paint")) tokens 0).
  intros z H. destruct (Z.eqb_spec z (-1)); lia.
Qed.

(** C2: a line that holds the keyword "paint" but, in the look-ahead window
    after the keyword anchor, no token in which a number can be read is
    rejected: the paint line parser returns no item.  "Paint Job Special"
    is such a line. *)
Theorem no_quantity_no_item :
  (forall line, no_number_in_window line ->
                parsePaintLineFlexible line = Ok None) /\
  re_test re_paint (str "Paint Job Special") = true /\
  parsePaintLineFlexible (str "Paint Job Special") = Ok None.
Proof.
  split; [|split; vm_compute; reflexivity].
  intros line H. unfold parsePaintLineFlexible.
  destruct (re_test re_paint _); [|reflexivity]. cbn [negb].
  fold (tokens_of line). fold (anchor_of (tokens_of line)).
  red in H. cbv zeta in H.
  pose proof (anchor_range (tokens_of line)) as Ha.
  assert (E : find_qty (tokens_of line) (anchor_of (tokens_of line)) = Ok None).
  { unfold find_qty, for_range. apply loop_from_all_None. intros k Hk.
    destruct (@at_index_Some _ (tokens_of line) k) as [tok Ht]; [lia|].
    specialize (H k tok ltac:(lia) Ht). rewrite Ht. cbn [bind receiver].
    unfold numeric in H. destruct (is_empty (cleaned_of tok)); [reflexivity|].
    simpl in H. apply negb_false_iff in H. now rewrite H. }
  rewrite E. reflexivity.
Qed.

Lemma no_quantity_no_item_witness :
  no_number_in_window (str "Paint Job Special") /\
  parsePaintLineFlexible (str "Paint Job Special") = Ok None.
Proof.
  assert (H : no_number_in_window (str "Paint Job Special")).
  { unfold no_number_in_window.
    replace (tokens_of (str "Paint Job Special"))
      with [str "Paint"; str "Job"; str "Special"] by (vm_compute; reflexivity).
    replace (anchor_of [str "Paint"; str "Job"; str "Special"]) with 0%Z
      by (vm_compute; reflexivity).
    intros i tok Hi. unfold len in Hi; simpl length in Hi.
    assert (Hc : i = 1%Z \/ i = 2%Z) by lia.
    destruct Hc as [-> | ->]; vm_compute; intros E; inversion E; reflexivity. }
  split; [exact H|]. exact (proj1 no_quantity_no_item _ H).
Defined.

(** ** The shapes of a product code *)

Ltac inv H := inversion H; subst; clear H.

Lemma in_chars (l : jsstring) (c : ascii) :
  existsb (Ascii.eqb c) l = true <-> In c l.
Proof.
  rewrite existsb_exists. split.
  - intros (x & Hx & E). apply Ascii.eqb_eq in E. now subst.
  - intros H. exists c. split; auto. apply Ascii.eqb_refl.
Qed.

Lemma is_digit_In c : is_digit c = true <-> In c digits.
Proof.
  rewrite <- in_chars.
  destruct c as [[] [] [] [] [] [] [] []]; vm_compute; tauto.
Qed.

Lemma is_alnum_In c : is_alnum c = true <-> In c alphanumerics.
Proof.
  rewrite <- in_chars.
  destruct c as [[] [] [] [] [] [] [] []]; vm_compute; tauto.
Qed.

Lemma ci_w c : ci "w" c = true <-> c = "w"%char \/ c = "W"%char.
Proof.
  split.
  - destruct c as [[] [] [] [] [] [] [] []]; vm_compute; intros H;
      try discriminate H; auto.
  - intros [-> | ->]; reflexivity.
Qed.

Lemma ci_a c : ci "a" c = true <-> c = "a"%char \/ c = "A"%char.
Proof.
  split.
  - destruct c as [[] [] [] [] [] [] [] []]; vm_compute; intros H;
      try discriminate H; auto.
  - intros [-> | ->]; reflexivity.
Qed.

Lemma forallb_In (p : ascii -> bool) (l s : jsstring) :
  (forall c, p c = true <-> In c l) ->
  forallb p s = true <-> Forall (fun c => In c l) s.
Proof.
  intros H. rewrite forallb_forall, Forall_forall.
  split; intros Hs c Hc; apply H; auto.
Qed.

Lemma wa_code_test tok : re_test_whole re_wa tok = true <-> wa_code tok.
Proof.
  rewrite re_test_whole_lang. unfold wa_code, re_wa. simpl lit_i. split.
  - intros H. inv H. inv H2. inv H1. inv H5. inv H4.
    exists x, x0, s2. simpl. rewrite <- ci_w, <- ci_a.
    rewrite <- (forallb_In is_digit digits s2 is_digit_In).
    repeat split; auto.
  - intros (w & a & ds & -> & Hw & Ha & Hl & Hd).
    apply ci_w in Hw. apply ci_a in Ha.
    apply (forallb_In is_digit digits ds is_digit_In) in Hd.
    change (w :: a :: ds) with (([w] ++ [a]) ++ ds).
    repeat constructor; auto; try lia. intros h E; inv E; lia.
Qed.

Lemma short_code_test tok : re_test_whole re_short tok = true <-> short_code tok.
Proof.
  rewrite re_test_whole_lang. unfold short_code, re_short, times. split.
  - intros H. inversion H as [| |? ? ? ? Hall Hlo Hhi| | | |]; subst.
    specialize (Hhi 6 eq_refl).
    rewrite <- (forallb_In is_alnum alphanumerics tok is_alnum_In).
    repeat split; auto; lia.
  - intros (Hl & Hc).
    apply (forallb_In is_alnum alphanumerics tok is_alnum_In) in Hc.
    constructor; auto; try lia. intros h E; inv E; lia.
Qed.

Section Scan.
Variable test : jsstring -> bool.
Variable tokens : list jsstring.

Lemma scan_code_first (i : Z) (n : nat) (j : Z) :
  (i <= j < i + Z.of_nat n)%Z ->
  test (to_string (at_index tokens j)) = true ->
  (forall k, (i <= k < j)%Z -> test (to_string (at_index tokens k)) = false) ->
  scan_code test tokens i n = Some (j, to_string (at_index tokens j)).
Proof.
  revert i; induction n as [|n IH]; intros i Hj Ht Hk; simpl; [lia|].
  destruct (Z.eq_dec i j) as [->|Hne].
  - now rewrite Ht.
  - rewrite (Hk i) by lia. apply IH; [lia|auto|]. intros; apply Hk; lia.
Qed.

Lemma scan_code_none (i : Z) (n : nat) :
  (forall k, (i <= k < i + Z.of_nat n)%Z ->
             test (to_string (at_index tokens k)) = false) ->
  scan_code test tokens i n = None.
Proof.
  revert i; induction n as [|n IH]; intros i Hk; simpl; [reflexivity|].
  rewrite (Hk i) by lia. apply IH. intros; apply Hk; lia.
Qed.

(** A test that rejects the string "undefined" only sees the tokens. *)
Hypothesis test_undefined : test (str "undefined") = false.

Lemma test_at (P : jsstring -> Prop) (k : Z) :
  (forall t, test t = true <-> P t) ->
  (forall t, at_index tokens k = Some t -> ~ P t) ->
  test (to_string (at_index tokens k)) = false.
Proof.
  intros HP H. destruct (at_index tokens k) as [t|]; simpl; auto.
  destruct (test t) eqn:E; auto. apply HP in E. now apply H in E.
Qed.
End Scan.

(** C5: the product-code search, for every token sequence and starting
    index: when a token of the WA shape ("WA" and three to five digits, any
    casing) exists in the remainder of the line, the first such token is
    returned; the short alphanumeric shape (two to six letters and digits)
    is used only when the remainder holds no token of the WA shape, and
    then its first token wins; otherwise nothing is found. *)
Theorem find_code_preference (tokens : list jsstring) (from : Z) :
  (forall i tok, first_from wa_code tokens from i tok ->
                 find_code tokens from = (i, tok)) /\
  (none_from wa_code tokens from ->
   forall i tok, first_from short_code tokens from i tok ->
                 find_code tokens from = (i, tok)) /\
  (none_from wa_code tokens from -> none_from short_code tokens from ->
   find_code tokens from = ((-1)%Z, str "")).
Proof.
  assert (Hwa : forall i tok, first_from wa_code tokens from i tok ->
    scan_code (re_test_whole re_wa) tokens from
              (Z.to_nat (len tokens - from)) = Some (i, tok)).
  { intros i tok (Hi & Ht & HP & Hk). pose proof (at_index_range _ _ Ht).
    replace tok with (to_string (at_index tokens i)) by now rewrite Ht.
    apply scan_code_first; [lia| |].
    - rewrite Ht. now apply wa_code_test.
    - intros k Hki. apply test_at with (P := wa_code); [reflexivity| |].
      + apply wa_code_test.
      + intros t Hkt. now apply (Hk k). }
  assert (Hsh : forall i tok, first_from short_code tokens from i tok ->
    scan_code (re_test_whole re_short) tokens from
              (Z.to_nat (len tokens - from)) = Some (i, tok)).
  { intros i tok (Hi & Ht & HP & Hk). pose proof (at_index_range _ _ Ht).
    replace tok with (to_string (at_index tokens i)) by now rewrite Ht.
    apply scan_code_first; [lia| |].
    - rewrite Ht. now apply short_code_test.
    - intros k Hki. apply test_at with (P := short_code); [reflexivity| |].
      + apply short_code_test.
      + intros t Hkt. now apply (Hk k). }
  assert (Hnwa : none_from wa_code tokens from ->
    scan_code (re_test_whole re_wa) tokens from
              (Z.to_nat (len tokens - from)) = None).
  { intros Hn. apply scan_code_none. intros k Hk.
    apply test_at with (P := wa_code); [reflexivity| |].
    - apply wa_code_test.
    - intros t Hkt. apply (Hn k); auto; lia. }
  assert (Hnsh : none_from short_code tokens from ->
    scan_code (re_test_whole re_short) tokens from
              (Z.to_nat (len tokens - from)) = None).
  { intros Hn. apply scan_code_none. intros k Hk.
    apply test_at with (P := short_code); [reflexivity| |].
    - apply short_code_test.
    - intros t Hkt. apply (Hn k); auto; lia. }
  unfold find_code. repeat split.
  - intros i tok H. now rewrite (Hwa i tok H).
  - intros Hn i tok H. now rewrite (Hnwa Hn), (Hsh i tok H).
  - intros Hn Hn'. now rewrite (Hnwa Hn), (Hnsh Hn').
Qed.

Lemma find_code_preference_witness :
  first_from wa_code (map str ["k3g"; "GM"; "WA8624"; "WHITE"]%string) 0 2
             (str "WA8624") /\
  find_code (map str ["k3g"; "GM"; "WA8624"; "WHITE"]%string) 0
  = (2%Z, str "WA8624").
Proof.
  assert (H : first_from wa_code
                (map str ["k3g"; "GM"; "WA8624"; "WHITE"]%string) 0 2
                (str "WA8624")).
  { repeat split; try lia.
    - apply wa_code_test. reflexivity.
    - intros j t Hj E. assert (Hc : j = 0%Z \/ j = 1%Z) by lia.
      rewrite <- wa_code_test.
      destruct Hc as [-> | ->]; inv E; vm_compute; discriminate. }
  split; [exact H|].
  exact (proj1 (find_code_preference _ 0) 2%Z (str "WA8624") H).
Defined.

(** ** No extractor throws *)

Lemma find_qty_total tokens startIdx :
  (0 <= startIdx)%Z -> exists r, find_qty tokens startIdx = Ok r.
Proof.
  intros H. unfold find_qty, for_range. apply loop_from_total. intros j Hj.
  destruct (@at_index_Some _ tokens j) as [tok ->]; [lia|]. cbn [bind receiver].
  destruct (is_empty (cleaned_of tok)); [eauto|].
  destruct (negb (isNaN (parseFloat (cleaned_of tok)))); eauto.
Qed.

Lemma find_unit_total tokens qtyIdx :
  (0 <= qtyIdx)%Z -> exists r, find_unit tokens qtyIdx = Ok r.
Proof.
  intros H. unfold find_unit, for_range. apply loop_from_total. intros j Hj.
  destruct (@at_index_Some _ tokens j) as [tok ->]; [lia|]. cbn [bind receiver].
  destruct (arr_includes unitWords (toLowerCase tok)); eauto.
Qed.

Lemma parsePaintLineFlexible_total line :
  exists r, parsePaintLineFlexible line = Ok r.
Proof.
  unfold parsePaintLineFlexible.
  destruct (re_test re_paint _); cbn [negb]; [|eauto].
  fold (tokens_of line). fold (anchor_of (tokens_of line)).
  pose proof (anchor_range (tokens_of line)) as Ha.
  destruct (find_qty_total (tokens_of line) Ha) as [q Hq]. rewrite Hq.
  cbn [bind]. destruct q as [[qtyIdx num]|]; [|simpl; eauto].
  apply find_qty_Some in Hq as (Hr & _).
  destruct (qtyIdx =? -1)%Z; [eauto|].
  destruct (find_unit_total (tokens_of line) (qtyIdx := qtyIdx)) as [u Hu];
    [lia|].
  rewrite Hu. cbn [bind]. destruct u as [[unitIdx u]|]; [|simpl; eauto].
  destruct (is_empty u); [eauto|].
  destruct (find_code _ _). eauto.
Qed.

Lemma extractSupplier_total text : exists r, extractSupplier text = Ok r.
Proof.
  unfold extractSupplier.
  assert (H : exists r, for_range 0 (Z.min (len (lines_of text)) 10) (fun i =>
    raw <- receiver (at_index (lines_of text) i) ;;
    if skip_line (toLowerCase raw) then Ok None
    else if (letters raw >=? 4)%Z then Ok (Some raw) else Ok None) = Ok r).
  { unfold for_range. apply loop_from_total. intros j Hj.
    destruct (@at_index_Some _ (lines_of text) j) as [raw ->]; [lia|].
    cbn [bind receiver]. destruct (skip_line _); [eauto|].
    destruct (letters raw >=? 4)%Z; eauto. }
  destruct H as [r ->]. cbn [bind]. destruct r; eauto.
Qed.

Lemma extractInvoiceNumber_total text :
  exists r, extractInvoiceNumber text = Some r.
Proof.
  unfold extractInvoiceNumber.
  destruct (re_match re_invoice text) as [[m c]|] eqn:E.
  - apply (re_match_Some (fun _ _ => True)) in E
      as (_ & _ & _ & _ & _ & _ & Hs); [|auto].
    specialize (Hs 1 eq_refl). destruct (capture 1 c); [eauto|congruence].
  - destruct (find _ _); eauto.
Qed.

Lemma span_digits_all ds :
  forallb is_digit ds = true -> span_digits ds = (ds, []).
Proof.
  induction ds as [|d ds IH]; simpl; auto.
  intros H. apply andb_true_iff in H as [-> H]. now rewrite IH.
Qed.

Lemma span_digits_stop ds c r :
  forallb is_digit ds = true -> is_digit c = false ->
  span_digits (ds ++ c :: r) = (ds, c :: r).
Proof.
  intros H Hc. induction ds as [|d ds IH]; simpl.
  - now rewrite Hc.
  - simpl in H. apply andb_true_iff in H as [-> H]. now rewrite IH.
Qed.

Lemma digit_not_comma c : is_digit c = true -> is_char "," c = false.
Proof.
  intros H. unfold is_char. destruct (Ascii.eqb_spec "," c); auto.
  subst. discriminate.
Qed.

Lemma drop_commas_digits s :
  forallb is_digit s = true -> drop_commas s = s.
Proof.
  unfold drop_commas.
  induction s as [|c s IH]; cbn [filter forallb]; auto.
  intros H. apply andb_true_iff in H as [Hc H].
  rewrite (digit_not_comma _ Hc). cbn [negb]. now rewrite IH.
Qed.

Lemma drop_commas_amount s :
  forallb (fun c => is_digit c || is_char "," c) s = true ->
  forallb is_digit (drop_commas s) = true.
Proof.
  unfold drop_commas.
  induction s as [|c s IH]; cbn [filter forallb]; auto.
  intros H. apply andb_true_iff in H as [Hc H].
  destruct (is_char "," c); cbn [negb forallb]; auto.
  rewrite orb_false_r in Hc. now rewrite Hc, IH.
Qed.

(** What the quantity loop hands to [parseFloat] holds digits and dots
    only. *)
Lemma cleaned_of_chars tok :
  Forall (fun c => is_digit c = true \/ c = "."%char) (cleaned_of tok).
Proof.
  apply Forall_forall. intros c Hc. unfold cleaned_of in Hc.
  apply filter_In in Hc as [_ Hc]. apply orb_true_iff in Hc as [Hc|Hc]; auto.
  right. unfold is_char in Hc. apply Ascii.eqb_eq in Hc. congruence.
Qed.

(** An amount the patterns capture is read as a number. *)
Lemma parseFloat_amount g :
  lang re_amount g -> exists q, parseFloat (drop_commas g) = Num q.
Proof.
  unfold re_amount, plus, times. intros H.
  inversion H as [| | |? ? s1 s23 H1 H23| | |]; subst.
  inversion H23 as [| | |? ? s2 s3 H2 H3| | |]; subst.
  inversion H2 as [|? x Hx| | | | |]; subst.
  inversion H1 as [| |? ? ? ? Hall1 _ _| | | |]; subst.
  inversion H3 as [| |? ? ? ? Hall3 Hlo3 _| | | |]; subst.
  assert (Edot : x = "."%char).
  { unfold is_char in Hx. apply Ascii.eqb_eq in Hx. congruence. }
  subst x.
  assert (E : drop_commas (s1 ++ ["."%char] ++ s3)
              = drop_commas s1 ++ "."%char :: s3).
  { unfold drop_commas. rewrite !filter_app.
    fold (drop_commas s3). now rewrite (drop_commas_digits _ Hall3). }
  rewrite E. unfold parseFloat.
  rewrite span_digits_stop; [|now apply drop_commas_amount|reflexivity].
  change (is_char "." ".") with true. cbv iota.
  rewrite (span_digits_all _ Hall3).
  destruct s3 as [|d s3]; [simpl in Hlo3; lia|].
  unfold is_empty at 2. rewrite andb_false_r. eauto.
Qed.

Lemma extractTotal_total text :
  extractTotal text = Ok None \/ exists q, extractTotal text = Ok (Some (Num q)).
Proof.
  unfold extractTotal.
  destruct (re_match re_total text) as [[m c]|] eqn:E.
  - right.
    apply (re_match_Some (fun n g => n = 1 -> lang re_amount g)) in E
      as (_ & _ & _ & _ & _ & Hc & Hs).
    + specialize (Hs 1 eq_refl). destruct (capture 1 c) as [g|] eqn:Eg;
        [|congruence].
      cbn [bind receiver].
      destruct (parseFloat_amount (Hc 1 g Eg eq_refl)) as [q ->]. eauto.
    + simpl. intros n r' g [Hi|[]] HL _. now inversion Hi; subst.
  - destruct (re_match re_due text) as [[m c]|] eqn:E'; [|now left].
    right.
    apply (re_match_Some (fun n g => n = 2 -> lang re_amount g)) in E'
      as (_ & _ & _ & _ & _ & Hc & Hs).
    + specialize (Hs 2 eq_refl). destruct (capture 2 c) as [g|] eqn:Eg;
        [|congruence].
      cbn [bind receiver].
      destruct (parseFloat_amount (Hc 2 g Eg eq_refl)) as [q ->]. eauto.
    + simpl. intros n r' g [Hi|[Hi|[]]] HL Hn.
      * inversion Hi; subst; discriminate.
      * now inversion Hi; subst.
Qed.

(** C1: on every input string, the empty string, white space and garbage
    included, the paint line parser and the extractors of the supplier, the
    invoice number and the total complete normally (no exception is thrown)
    with a well-formed result: an item or no item, a string, a number or
    null.  On the empty string and on white space they give no item, the
    empty string, the empty string and null. *)
Theorem extractors_never_throw (s : jsstring) :
  (exists r, parsePaintLineFlexible s = Ok r) /\
  (exists r, extractSupplier s = Ok r) /\
  (exists r, extractInvoiceNumber s = Some r) /\
  (extractTotal s = Ok None \/ exists q, extractTotal s = Ok (Some (Num q))) /\
  Forall (fun blank =>
            parsePaintLineFlexible blank = Ok None /\
            extractSupplier blank = Ok (str "") /\
            extractInvoiceNumber blank = Some (str "") /\
            extractTotal blank = Ok None)
         [str ""; " "%char :: "009"%char :: "013"%char :: nl].
Proof.
  split; [apply parsePaintLineFlexible_total|].
  split; [apply extractSupplier_total|].
  split; [apply extractInvoiceNumber_total|].
  split; [apply extractTotal_total|].
  repeat constructor.
Qed.

(** ** The supplier scan *)

Lemma skip_line_markers line :
  negb (skip_line (toLowerCase line))
  = forallb (fun m => negb (includes (toLowerCase line) m)) skip_markers.
Proof.
  unfold skip_line, skip_markers. cbn [map forallb].
  rewrite andb_true_r, !negb_orb, <- !andb_assoc. reflexivity.
Qed.

Lemma nth_error_skipn {A : Type} (l : list A) (k : nat) (x : A) :
  nth_error l k = Some x -> skipn k l = x :: skipn (S k) l.
Proof.
  revert l; induction k as [|k IH]; intros [|y l]; simpl; try discriminate.
  - intros H; inversion H; reflexivity.
  - intros H. rewrite (IH _ H). reflexivity.
Qed.

(** An index loop that returns the first element passing a test is [find]
    over the elements it visits. *)
Lemma loop_from_find {A : Type} (arr : list A) (q : A -> bool)
      (body : Z -> js (option A)) (n k : nat) :
  (forall i x, at_index arr i = Some x ->
               body i = Ok (if q x then Some x else None)) ->
  k + n <= length arr ->
  loop_from body (Z.of_nat k) n = Ok (find q (firstn n (skipn k arr))).
Proof.
  intros Hb. revert k; induction n as [|n IH]; intros k Hk; simpl; auto.
  destruct (nth_error arr k) as [x|] eqn:E.
  2:{ apply nth_error_None in E. lia. }
  rewrite (Hb (Z.of_nat k) x).
  2:{ unfold at_index. destruct (Z.ltb_spec (Z.of_nat k) 0); [lia|].
      now rewrite Nat2Z.id. }
  rewrite (nth_error_skipn _ _ E). simpl.
  destruct (q x); simpl; auto.
  replace (Z.of_nat k + 1)%Z with (Z.of_nat (S k)) by lia.
  apply IH. lia.
Qed.

Lemma extractSupplier_find text :
  extractSupplier text
  = Ok match find qualifies (firstn 10 (lines_of text)) with
       | Some l => l
       | None => str ""
       end.
Proof.
  unfold extractSupplier, for_range.
  rewrite (@loop_from_find _ (lines_of text) qualifies _ _ 0).
  - cbn [bind skipn]. unfold len.
    replace (Z.to_nat (Z.min (Z.of_nat (length (lines_of text))) 10 - 0))
      with (Nat.min 10 (length (lines_of text))) by lia.
    rewrite <- firstn_firstn, firstn_all.
    destruct (find qualifies _); reflexivity.
  - intros i raw E. rewrite E. cbn [bind receiver]. unfold qualifies.
    rewrite <- skip_line_markers.
    destruct (skip_line (toLowerCase raw)); cbn [negb andb]; auto.
    rewrite Z.geb_leb. destruct (4 <=? letters raw)%Z; reflexivity.
  - unfold len. lia.
Qed.

(** C7, the claim as stated fails: on a document whose only line is
    "Invoice #1807583" no line is accepted; the first non-empty line of the
    document is that line, yet the extractor returns the empty string. *)
Lemma supplier_fallback_counterexample :
  supplier_by_spec (str "Invoice #1807583") = str "Invoice #1807583" /\
  extractSupplier (str "Invoice #1807583") = Ok (str "") /\
  extractSupplier (str "Invoice #1807583")
  <> Ok (supplier_by_spec (str "Invoice #1807583")).
Proof.
  split; [vm_compute; reflexivity|].
  split; [vm_compute; reflexivity|].
  vm_compute. discriminate.
Qed.

(** C7, amended: for every text the supplier extractor scans the first ten
    non-empty trimmed lines, skips every line that holds a marker of the
    skip list in any casing, and returns the first remaining line with at
    least four letters; when no line is accepted it returns the empty
    string.  A first line "Invoice #1807583" is skipped in favour of the
    next accepted line. *)
Theorem supplier_first_accepted_line :
  (forall text,
     extractSupplier text
     = Ok match find qualifies (firstn 10 (lines_of text)) with
          | Some l => l
          | None => str ""
          end) /\
  extractSupplier (str "Invoice #1807583" ++ nl ++ str "PAINT MY RIDE")
  = Ok (str "PAINT MY RIDE").
Proof.
  split; [apply extractSupplier_find|]. vm_compute. reflexivity.
Qed.

(** ** The notes *)

Section Notes_facts.
Variable number_to_string : jsnum -> jsstring.

Lemma format_lines_total lines :
  exists items, format_lines number_to_string lines = Ok items.
Proof.
  induction lines as [|line rest [items IH]]; simpl; [eauto|].
  destruct (re_test re_paint line); cbn [negb]; [|eauto].
  destruct (re_test re_digit line); cbn [negb]; [|eauto].
  destruct (re_test re_unit_word line); cbn [negb]; [|eauto].
  destruct (parsePaintLineFlexible_total line) as [r ->]. rewrite IH.
  cbn [bind]. destruct r as [it|]; [|eauto].
  destruct (is_empty (code it)); cbn [negb]; eauto.
Qed.

Lemma format_lines_no_paint lines :
  (forall l, In l lines -> re_test re_paint l = false) ->
  format_lines number_to_string lines = Ok [].
Proof.
  induction lines as [|line rest IH]; intros H; simpl; [reflexivity|].
  rewrite (H line) by (left; reflexivity). cbn [negb].
  apply IH. intros l Hl. apply H. now right.
Qed.

Lemma filter_no_paint lines :
  (forall l, In l lines -> re_test re_paint l = false) ->
  filter (re_test re_paint) lines = [].
Proof.
  induction lines as [|line rest IH]; intros H; simpl; [reflexivity|].
  rewrite (H line) by (left; reflexivity).
  apply IH. intros l Hl. apply H. now right.
Qed.

Lemma formatPaintItems_total text :
  exists f, formatPaintItems number_to_string text = Ok f.
Proof.
  unfold formatPaintItems.
  destruct (format_lines_total (lines_of text)) as [items ->]. cbn [bind].
  destruct (len items =? 0)%Z; eauto.
Qed.

Lemma formatPaintItems_no_paint text :
  no_paint_line text -> formatPaintItems number_to_string text = Ok (str "").
Proof.
  intros H. unfold formatPaintItems.
  now rewrite (format_lines_no_paint _ H).
Qed.
End Notes_facts.

(** C6: the notes follow a fixed order of preference: the formatted paint
    items when there are some; otherwise the lines that mention "paint",
    kept as they are and joined by line feeds, when there are some;
    otherwise the first 800 characters of the raw text.  In particular,
    for every text without a line that mentions "paint", the notes are the
    first 800 characters of the text. *)
Theorem notes_preference_order (number_to_string : jsnum -> jsstring)
        (text : jsstring) :
  exists f s,
    formatPaintItems number_to_string text = Ok f /\
    parsed_summary number_to_string text = Ok s /\
    extractPaintLinesFallback text
    = join nl (filter (re_test re_paint) (lines_of text)) /\
    (f <> str "" -> notes s = f) /\
    (f = str "" -> extractPaintLinesFallback text <> str "" ->
     notes s = extractPaintLinesFallback text) /\
    (f = str "" -> extractPaintLinesFallback text = str "" ->
     notes s = firstn 800 text) /\
    (no_paint_line text -> notes s = firstn 800 text).
Proof.
  destruct (formatPaintItems_total number_to_string text) as [f Hf].
  destruct (extractSupplier_total text) as [sup Hsup].
  assert (Hc : exists c, extractTotal text = Ok c).
  { destruct (extractTotal_total text) as [->|[q ->]]; eauto. }
  destruct Hc as [c Hc].
  exists f. eexists. split; [exact Hf|].
  unfold parsed_summary. rewrite Hsup, Hc, Hf. cbn [bind].
  split; [reflexivity|]. cbn [notes].
  split; [reflexivity|].
  split; [|split; [|split]].
  - intros Hne. destruct f; [exfalso; apply Hne; reflexivity|]. reflexivity.
  - intros -> Hne. cbn. now apply or_str_nonempty.
  - intros -> ->. reflexivity.
  - intros Hn. rewrite (formatPaintItems_no_paint number_to_string Hn) in Hf.
    inversion Hf; subst. unfold extractPaintLinesFallback.
    rewrite (filter_no_paint _ Hn). reflexivity.
Qed.

Lemma notes_preference_order_witness :
  no_paint_line (str "ACME BODY SHOP") /\
  exists s, parsed_summary (fun _ => str "") (str "ACME BODY SHOP") = Ok s /\
            notes s = firstn 800 (str "ACME BODY SHOP").
Proof.
  assert (H : no_paint_line (str "ACME BODY SHOP")).
  { intros l Hl. vm_compute in Hl. destruct Hl as [<-|[]]. reflexivity. }
  split; [exact H|].
  destruct (notes_preference_order (fun _ => str "") (str "ACME BODY SHOP"))
    as (f & s & _ & Hs & _ & _ & _ & _ & Hn).
  exists s. split; [exact Hs|exact (Hn H)].
Defined.

(** The handler answers an empty transcript before the object [parsed] is
    built; on every other transcript its answer is that object. *)
Lemma handler_summary_nonempty (number_to_string : jsnum -> jsstring)
      (text : jsstring) :
  text <> [] ->
  handler_summary number_to_string text = parsed_summary number_to_string text.
Proof. destruct text; [congruence|reflexivity]. Qed.

(** The end-to-end example of the specification. *)
Example end_to_end (number_to_string : jsnum -> jsstring) :
  parsed_summary number_to_string
    (str "PAINT MY RIDE" ++ nl ++ str "Tucker, GA" ++ nl
     ++ str "Invoice # 1807583" ++ nl
     ++ str "Paint 2 Quarts k3g 122.00 122.00" ++ nl ++ str "Total $202.00")
  = Ok {| supplier := str "PAINT MY RIDE";
          invoice_number := Some (str "1807583");
          cost := Some (Num 202%Q);
          notes := str "Unknown | k3g | 122.00 | "
                   ++ number_to_string (Num 2%Q) ++ str " Quart" |}.
Proof. vm_compute. reflexivity. Qed.

(** ** The total *)

Lemma re_match_here r s m :
  bt r s [] (fun s' c => Some (consumed s s', c)) = Some m ->
  re_match r s = Some m.
Proof. intros H. destruct s; simpl; now rewrite H. Qed.

(** A repetition keeps the characters it took when it could not take one
    more and the rest of the pattern accepts what follows them. *)
Lemma rep_greedy {R : Type} p lo hi (taken rest s : jsstring)
      (k : jsstring -> option R) v :
  s = taken ++ rest ->
  forallb p taken = true ->
  lo <= length taken ->
  (forall h, hi = Some h -> length taken <= h) ->
  (hi = Some (length taken) \/
   match rest with [] => True | y :: _ => p y = false end) ->
  k rest = Some v ->
  rep p lo hi s k = Some v.
Proof.
  intros -> Hall. revert lo hi.
  induction taken as [|x taken IH]; intros lo hi Hlo Hhi Hstop Hk.
  - simpl in *. assert (lo = 0) as -> by lia.
    destruct rest as [|y rest]; simpl; auto.
    destruct Hstop as [-> | ->]; simpl; auto. now rewrite andb_false_r.
  - simpl in *. apply andb_true_iff in Hall as [-> Hall].
    assert (room hi = true) as ->.
    { destruct hi as [[|h]|]; auto. specialize (Hhi 0 eq_refl). lia. }
    simpl. rewrite (IH Hall (pred lo) (option_map pred hi)); auto.
    + lia.
    + intros h Hh. destruct hi as [h'|]; [|discriminate].
      inversion Hh; subst. specialize (Hhi h' eq_refl). lia.
    + destruct Hstop as [-> | H]; auto.
Qed.

Ltac eval_ci :=
  repeat match goal with
  | |- context [ci ?a ?b] =>
      let v := eval vm_compute in (ci a b) in change (ci a b) with v
  | |- context [is_char ?a ?b] =>
      let v := eval vm_compute in (is_char a b) in change (is_char a b) with v
  end; cbv iota.

Ltac take chars :=
  eapply (@rep_greedy _ _ _ _ chars);
  [reflexivity | reflexivity | simpl; lia | intros ? E; inversion E; simpl; lia
  | first [left; reflexivity | right; reflexivity] | cbv beta].

Ltac unfold_pattern :=
  unfold str; cbn [list_ascii_of_string app];
  unfold re_total, re_due, re_amount, star, opt, plus, times;
  cbn [bt lit_i str list_ascii_of_string]; eval_ci.

Lemma re_total_here post :
  exists m, re_match re_total (str "Total $202.00" ++ post)
            = Some (m, [(1, str "202.00")]).
Proof.
  eexists. eapply re_match_here. unfold_pattern.
  take (str " "). take (str "$"). take (str ""). take (str "202").
  eval_ci. take (str "00").
  change ("2" :: "0" :: "2" :: "." :: "0" :: "0" :: post)%char
    with (str "202.00" ++ post).
  rewrite consumed_app. reflexivity.
Qed.

Lemma re_due_here post :
  exists m, re_match re_due (str "Balance Due $1,250.00" ++ post)
            = Some (m, [(2, str "1,250.00"); (1, str "Balance Due")]).
Proof.
  eexists. eapply re_match_here. unfold_pattern.
  take (str " "). take (str "$"). take (str ""). take (str "1,250").
  eval_ci. take (str "00").
  change ("1" :: "," :: "2" :: "5" :: "0" :: "." :: "0" :: "0" :: post)%char
    with (str "1,250.00" ++ post).
  rewrite consumed_app.
  match goal with
  | |- context [consumed ?s ?t] =>
      change (consumed s t)
        with (consumed (str "Balance Due" ++ str " $1,250.00" ++ post)
                       (str " $1,250.00" ++ post))
  end.
  rewrite consumed_app. reflexivity.
Qed.

Lemma not_starts r s :
  bt r s [] (fun _ _ => Some true) = None -> ~ starts r s.
Proof. apply bt_None_starts. discriminate. Qed.

(** C8, the claim as stated fails: a text can contain "Total $202.00" and
    have another total: the pattern is not anchored to a word, "Subtotal"
    matches it, and the leftmost match is the one that is read. *)
Lemma total_containing_counterexample :
  includes (str "Subtotal $100.00" ++ nl ++ str "Total $202.00")
           (str "Total $202.00") = true /\
  extractTotal (str "Subtotal $100.00" ++ nl ++ str "Total $202.00")
  = Ok (Some (Num 100%Q)) /\
  extractTotal (str "Subtotal $100.00" ++ nl ++ str "Total $202.00")
  <> Ok (Some (Num 202%Q)).
Proof.
  split; [vm_compute; reflexivity|].
  split; [vm_compute; reflexivity|].
  vm_compute. discriminate.
Qed.

(** C8, amended: the total extractor reads the leftmost match.  It returns
    202.00 for the text "Total $202.00" and for every text in which that
    occurrence is the leftmost match of the Total pattern; it returns
    1250.00 (the thousands separator removed) for the text
    "Balance Due $1,250.00" and for every text without a match of the
    Total pattern in which that occurrence is the leftmost match of the
    amount-due pattern; it returns null, without throwing, for every text
    in which neither pattern occurs. *)
Theorem total_of_leftmost_match :
  (forall pre post,
     none_before re_total (pre ++ str "Total $202.00" ++ post) (length pre) ->
     extractTotal (pre ++ str "Total $202.00" ++ post)
     = Ok (Some (Num 202%Q))) /\
  (forall pre post,
     ~ occurs re_total (pre ++ str "Balance Due $1,250.00" ++ post) ->
     none_before re_due (pre ++ str "Balance Due $1,250.00" ++ post)
                 (length pre) ->
     extractTotal (pre ++ str "Balance Due $1,250.00" ++ post)
     = Ok (Some (Num 1250%Q))) /\
  (forall text,
     ~ occurs re_total text -> ~ occurs re_due text ->
     extractTotal text = Ok None) /\
  extractTotal (str "Total $202.00") = Ok (Some (Num 202%Q)) /\
  extractTotal (str "Balance Due $1,250.00") = Ok (Some (Num 1250%Q)).
Proof.
  split; [|split; [|split; [|split; vm_compute; reflexivity]]].
  - intros pre post H. unfold extractTotal.
    rewrite (re_match_skip _ _ H).
    destruct (re_total_here post) as [m ->]. reflexivity.
  - intros pre post Hn H. unfold extractTotal.
    apply re_match_None in Hn. rewrite Hn.
    rewrite (re_match_skip _ _ H).
    destruct (re_due_here post) as [m ->]. reflexivity.
  - intros text H1 H2. unfold extractTotal.
    apply re_match_None in H1, H2. now rewrite H1, H2.
Qed.

Lemma total_of_leftmost_match_witness :
  (none_before re_total (str "Net 30. " ++ str "Total $202.00" ++ str " due")
               (length (str "Net 30. ")) /\
   extractTotal (str "Net 30. " ++ str "Total $202.00" ++ str " due")
   = Ok (Some (Num 202%Q))) /\
  (~ occurs re_total (str "Now: " ++ str "Balance Due $1,250.00" ++ str "!") /\
   none_before re_due (str "Now: " ++ str "Balance Due $1,250.00" ++ str "!")
               (length (str "Now: ")) /\
   extractTotal (str "Now: " ++ str "Balance Due $1,250.00" ++ str "!")
   = Ok (Some (Num 1250%Q))) /\
  (~ occurs re_total (str "Totally 12.5 due") /\
   ~ occurs re_due (str "Totally 12.5 due") /\
   extractTotal (str "Totally 12.5 due") = Ok None).
Proof.
  assert (H1 : none_before re_total
                 (str "Net 30. " ++ str "Total $202.00" ++ str " due")
                 (length (str "Net 30. "))).
  { intros i Hi. apply not_starts.
    do 8 (destruct i as [|i]; [vm_compute; reflexivity|]).
    simpl in Hi. lia. }
  assert (H2 : ~ occurs re_total
                 (str "Now: " ++ str "Balance Due $1,250.00" ++ str "!")).
  { apply re_match_None. vm_compute. reflexivity. }
  assert (H3 : none_before re_due
                 (str "Now: " ++ str "Balance Due $1,250.00" ++ str "!")
                 (length (str "Now: "))).
  { intros i Hi. apply not_starts.
    do 5 (destruct i as [|i]; [vm_compute; reflexivity|]).
    simpl in Hi. lia. }
  assert (H4 : ~ occurs re_total (str "Totally 12.5 due")).
  { apply re_match_None. vm_compute. reflexivity. }
  assert (H5 : ~ occurs re_due (str "Totally 12.5 due")).
  { apply re_match_None. vm_compute. reflexivity. }
  split; [split; [exact H1|]|split; [split; [exact H2|split; [exact H3|]]|]].
  - exact (proj1 total_of_leftmost_match (str "Net 30. ") (str " due") H1).
  - exact (proj1 (proj2 total_of_leftmost_match) (str "Now: ") (str "!") H2 H3).
  - split; [exact H4|]. split; [exact H5|].
    exact (proj1 (proj2 (proj2 total_of_leftmost_match)) _ H4 H5).
Defined.

(** ** The tokens of a line are not empty *)

Lemma spaced_collapse b s : spaced b (collapse_aux b s) = true.
Proof.
  revert b; induction s as [|c s IH]; intros b; simpl; auto.
  destruct (is_space c) eqn:E.
  - destruct b; [apply IH|]. cbn [spaced].
    change (is_space " ") with true. cbn [negb andb]. apply IH.
  - cbn [spaced]. rewrite E. apply IH.
Qed.

Lemma only_spaces_collapse b s :
  Forall (fun c => is_space c = true -> c = " "%char) (collapse_aux b s).
Proof.
  revert b; induction s as [|c s IH]; intros b; simpl; auto.
  destruct (is_space c) eqn:E.
  - destruct b; [apply IH|]. constructor; auto.
  - constructor; auto. congruence.
Qed.

Lemma spaced_trim_start b b' s :
  spaced b s = true -> spaced b' (trim_start s) = true.
Proof.
  revert b; induction s as [|c s IH]; intros b; simpl; auto.
  destruct (is_space c) eqn:E.
  - intros H. apply andb_true_iff in H as [_ H]. eauto.
  - intros H. cbn [spaced]. now rewrite E.
Qed.

Lemma only_spaces_trim_start (P : ascii -> Prop) s :
  Forall P s -> Forall P (trim_start s).
Proof.
  induction 1 as [|c s Hc Hs IH]; simpl; auto.
  destruct (is_space c); auto.
Qed.

Lemma trim_start_snoc a c :
  trim_start (a ++ [c])
  = match trim_start a with
    | [] => if is_space c then [] else [c]
    | t => t ++ [c]
    end.
Proof.
  induction a as [|x a IH]; simpl; auto.
  destruct (is_space x); auto.
Qed.

Lemma trim_end_cons c s :
  trim_end (c :: s)
  = match trim_end s with
    | [] => if is_space c then [] else [c]
    | t => c :: t
    end.
Proof.
  unfold trim_end. simpl rev. rewrite trim_start_snoc.
  destruct (trim_start (rev s)) as [|y t] eqn:E; simpl.
  - destruct (is_space c); reflexivity.
  - rewrite rev_app_distr. simpl.
    destruct (rev t ++ [y]) eqn:E'; [|reflexivity].
    apply app_eq_nil in E' as [_ E']. discriminate.
Qed.

Lemma well_spaced_trim_end b s :
  spaced b s = true ->
  Forall (fun c => is_space c = true -> c = " "%char) s ->
  trim_end s <> [] \/ b = false ->
  well_spaced b (trim_end s) = true.
Proof.
  intros Hs Ho. revert b Hs.
  induction Ho as [|c s Hc Ho IH]; intros b Hs Hne.
  - destruct Hne as [Hne | ->]; [now elim Hne|reflexivity].
  - rewrite trim_end_cons in *. cbn [spaced] in Hs.
    destruct (Ascii.eqb_spec c " ") as [->|Hsp].
    + change (is_space " ") with true in *. cbv iota in *.
      apply andb_true_iff in Hs as [Hb Hs].
      destruct (trim_end s) as [|y t] eqn:E.
      * destruct b; [discriminate|]. reflexivity.
      * cbn [well_spaced]. change (Ascii.eqb " " " ") with true. cbv iota.
        rewrite Hb. apply IH; auto. left; discriminate.
    + assert (E : is_space c = false).
      { destruct (is_space c); auto. now elim Hsp; apply Hc. }
      rewrite E in *.
      destruct (trim_end s) as [|y t] eqn:E'.
      * cbn [well_spaced]. apply Ascii.eqb_neq in Hsp. now rewrite Hsp.
      * cbn [well_spaced]. apply Ascii.eqb_neq in Hsp. rewrite Hsp.
        apply IH; auto.
Qed.

Lemma split_aux_nonempty s acc :
  well_spaced (is_empty acc) s = true ->
  Forall (fun t => t <> []) (split_aux " " s acc).
Proof.
  revert acc; induction s as [|c s IH]; intros acc; simpl.
  - intros H. constructor; auto. destruct acc; [discriminate|].
    simpl. intros E. apply app_eq_nil in E as [_ E]. discriminate.
  - destruct (Ascii.eqb c " ").
    + intros H. apply andb_true_iff in H as [Ha H]. constructor.
      * destruct acc; [discriminate|].
        simpl. intros E. apply app_eq_nil in E as [_ E]. discriminate.
      * now apply IH.
    + intros H. now apply IH.
Qed.

Lemma tokens_of_nonempty line :
  trim (collapse_spaces line) <> [] ->
  Forall (fun t => t <> []) (tokens_of line).
Proof.
  intros Hne. unfold tokens_of, split_char. apply split_aux_nonempty.
  change (trim (collapse_spaces line))
    with (trim_end (trim_start (collapse_spaces line))) in *.
  apply well_spaced_trim_end; auto.
  - apply spaced_trim_start with (b := false). apply spaced_collapse.
  - apply only_spaces_trim_start. apply only_spaces_collapse.
Qed.

(** ** The make *)

Lemma scan_code_Some test tokens i n j tok :
  scan_code test tokens i n = Some (j, tok) -> (i <= j)%Z.
Proof.
  revert i; induction n as [|n IH]; intros i; simpl; [discriminate|].
  destruct (test _).
  - intros H; inversion H; lia.
  - intros H. apply IH in H. lia.
Qed.

Lemma find_code_found tokens from i c :
  find_code tokens from = (i, c) -> c <> [] -> (from <= i)%Z.
Proof.
  unfold find_code.
  destruct (scan_code (re_test_whole re_wa) _ _ _) as [[j t]|] eqn:E1.
  { intros H _; inversion H; subst. eapply scan_code_Some; eauto. }
  destruct (scan_code (re_test_whole re_short) _ _ _) as [[j t]|] eqn:E2.
  { intros H _; inversion H; subst. eapply scan_code_Some; eauto. }
  intros H Hc; inversion H; subst. now elim Hc.
Qed.

Lemma slice_same {A : Type} (l : list A) a : slice l a a = [].
Proof. unfold slice. now rewrite Z.sub_diag. Qed.

Lemma in_slice {A : Type} (l : list A) a b x : In x (slice l a b) -> In x l.
Proof.
  unfold slice. intros H.
  rewrite <- (firstn_skipn (Z.to_nat (clamp (len l) a)) l).
  apply in_or_app. right.
  rewrite <- (firstn_skipn (Z.to_nat (clamp (len l) b - clamp (len l) a))
                           (skipn _ l)).
  apply in_or_app. now left.
Qed.

Lemma arr_includes_In arr x : arr_includes arr x = true <-> In x arr.
Proof.
  unfold arr_includes. rewrite existsb_exists. split.
  - intros (y & Hy & E). apply str_eqb_eq in E. now subst.
  - intros H. exists x. split; auto. now apply str_eqb_eq.
Qed.

Lemma in_drop_brands toks t :
  In t (drop_brands toks) -> In t toks /\ ~ In (toLowerCase t) brandWords.
Proof.
  unfold drop_brands. rewrite filter_In. intros [H Hb]. split; auto.
  rewrite <- arr_includes_In. now destruct (arr_includes _ _).
Qed.

Lemma join_nonempty sep l :
  l <> [] -> Forall (fun t : jsstring => t <> []) l -> join sep l <> [].
Proof.
  destruct l as [|x l]; [congruence|]. intros _ H. inv H.
  destruct x as [|c x]; [congruence|]. destruct l; simpl; discriminate.
Qed.

Lemma spans_nonempty line a b :
  trim (collapse_spaces line) <> [] ->
  Forall (fun t => t <> []) (drop_brands (slice (tokens_of line) a b)).
Proof.
  intros H. apply Forall_forall. intros t Ht.
  apply in_drop_brands in Ht as [Ht _]. apply in_slice in Ht.
  pose proof (tokens_of_nonempty line H) as Hall.
  rewrite Forall_forall in Hall. auto.
Qed.

(** C4, the claim as stated fails: on "Paint GM 1 Pint MIPA WA8624 WHITE"
    the span between the unit and the code holds the brand word only, the
    span between the keyword and the quantity holds "GM", and the make is
    "Unknown". *)
Lemma make_fallback_counterexample :
  tokens_of (str "Paint GM 1 Pint MIPA WA8624 WHITE")
  = map str ["Paint"; "GM"; "1"; "Pint"; "MIPA"; "WA8624"; "WHITE"]%string /\
  find_qty (tokens_of (str "Paint GM 1 Pint MIPA WA8624 WHITE")) 0
  = Ok (Some (2%Z, Num 1%Q)) /\
  find_unit (tokens_of (str "Paint GM 1 Pint MIPA WA8624 WHITE")) 2
  = Ok (Some (3%Z, str "Pint")) /\
  find_code (tokens_of (str "Paint GM 1 Pint MIPA WA8624 WHITE")) 4
  = (5%Z, str "WA8624") /\
  make_by_spec (tokens_of (str "Paint GM 1 Pint MIPA WA8624 WHITE")) 0 2 3 5
  = str "GM" /\
  parsePaintLineFlexible (str "Paint GM 1 Pint MIPA WA8624 WHITE")
  = Ok (Some {| qty := QNum (Num 1%Q); unit := str "Pint";
                make := str "Unknown"; code := str "WA8624";
                color := str "WHITE" |}).
Proof. repeat split; vm_compute; reflexivity. Qed.

(** C4, amended: for every parsed line in which a product code was found,
    the make is the span between (unit index + 1) and (code index) without
    its brand words when that filtered span is not empty; it is the span
    between (keyword index + 1) and (quantity index) without its brand
    words when the code follows the unit at once and that filtered span is
    not empty; otherwise it is "Unknown".  No brand word (mipa, ppg, basf,
    sherwin, dupont, spi, standox, in any casing) is a token of either
    span. *)
Theorem make_from_spans (line : jsstring) (it : item) :
  parsePaintLineFlexible line = Ok (Some it) ->
  code it <> str "" ->
  exists qtyIdx unitIdx codeIdx num u,
    find_qty (tokens_of line) (anchor_of (tokens_of line))
    = Ok (Some (qtyIdx, num)) /\
    find_unit (tokens_of line) qtyIdx = Ok (Some (unitIdx, u)) /\
    find_code (tokens_of line) (unitIdx + 1) = (codeIdx, code it) /\
    let near := drop_brands (slice (tokens_of line) (unitIdx + 1) codeIdx) in
    let far := drop_brands (slice (tokens_of line)
                                  (anchor_of (tokens_of line) + 1) qtyIdx) in
    (near <> [] -> make it = join (str " ") near) /\
    (codeIdx = (unitIdx + 1)%Z -> far <> [] ->
     make it = join (str " ") far) /\
    (near = [] -> codeIdx <> (unitIdx + 1)%Z \/ far = [] ->
     make it = str "Unknown") /\
    Forall (fun t => ~ In (toLowerCase t) brandWords) (near ++ far).
Proof.
  unfold parsePaintLineFlexible.
  destruct (re_test re_paint _) eqn:Ep; cbn [negb]; [|discriminate].
  assert (Hne : trim (collapse_spaces line) <> []).
  { intros E. rewrite E in Ep. discriminate. }
  fold (tokens_of line). fold (anchor_of (tokens_of line)).
  destruct (find_qty _ _) as [[[qtyIdx num]|]|] eqn:Eq; cbn [bind];
    try discriminate.
  destruct (qtyIdx =? -1)%Z; [discriminate|].
  destruct (find_unit _ qtyIdx) as [[[unitIdx u]|]|] eqn:Eu; cbn [bind];
    try discriminate.
  destruct (is_empty u); [discriminate|].
  destruct (find_code _ (unitIdx + 1)) as [codeIdx c] eqn:Ec.
  intros H Hcode. inversion H; subst; clear H. cbn [code make] in *.
  assert (Hc : c <> []).
  { intros ->. now apply Hcode. }
  rewrite (or_str_nonempty _ Hc) in *.
  exists qtyIdx, unitIdx, codeIdx, num, u.
  split; [first [assumption|reflexivity]|].
  split; [first [assumption|reflexivity]|].
  split; [first [assumption|reflexivity]|].
  cbv zeta.
  pose proof (find_code_found _ _ Ec Hc) as Hci.
  apply find_qty_Some in Eq as (Hq & _).
  apply find_unit_Some in Eu as (Hu & _).
  pose proof (anchor_range (tokens_of line)) as Ha.
  pose proof (spans_nonempty line (unitIdx + 1) codeIdx Hne) as Hnear.
  pose proof (spans_nonempty line (anchor_of (tokens_of line) + 1) qtyIdx Hne)
    as Hfar.
  unfold make_of.
  assert (E1 : (codeIdx =? -1)%Z = false) by (apply Z.eqb_neq; lia).
  rewrite E1. cbn [negb andb].
  set (near := drop_brands (slice (tokens_of line) (unitIdx + 1) codeIdx)) in *.
  set (far := drop_brands (slice (tokens_of line)
                                 (anchor_of (tokens_of line) + 1) qtyIdx)) in *.
  assert (Hj : forall l, l <> [] -> Forall (fun t : jsstring => t <> []) l ->
    or_str (if (len l >? 0)%Z then join (str " ") l else str "Unknown")
           (str "Unknown") = join (str " ") l).
  { intros l Hl Hall. destruct l as [|x l]; [congruence|].
    replace (len (x :: l) >? 0)%Z with true
      by (symmetry; apply Z.gtb_lt; unfold len; simpl length; lia).
    apply or_str_nonempty. now apply join_nonempty. }
  assert (Hk : forall l : list jsstring, l = [] ->
    or_str (if (len l >? 0)%Z then join (str " ") l else str "Unknown")
           (str "Unknown") = str "Unknown").
  { intros l ->. reflexivity. }
  repeat split.
  - intros Hn. destruct (Z.gtb_spec codeIdx (unitIdx + 1)).
    + now apply Hj.
    + exfalso. apply Hn. subst near.
      replace codeIdx with (unitIdx + 1)%Z by lia. now rewrite slice_same.
  - intros -> Hf. rewrite Z.gtb_ltb, Z.ltb_irrefl.
    destruct (Z.gtb_spec qtyIdx (anchor_of (tokens_of line) + 1)).
    + now apply Hj.
    + exfalso. apply Hf. subst far.
      replace qtyIdx with (anchor_of (tokens_of line) + 1)%Z by lia.
      now rewrite slice_same.
  - intros Hn Hor. destruct (Z.gtb_spec codeIdx (unitIdx + 1)).
    + now apply Hk.
    + destruct Hor as [Hor|Hf]; [lia|].
      destruct (qtyIdx >? anchor_of (tokens_of line) + 1)%Z; auto.
  - apply Forall_forall. intros t Ht. apply in_app_or in Ht.
    destruct Ht as [Ht|Ht]; now apply in_drop_brands in Ht.
Qed.

Lemma make_from_spans_witness :
  parsePaintLineFlexible (str "Paint GM/CHEV 0.5 Pint WA8624 White")
  = Ok (Some {| qty := QNum (Num (1 # 2)); unit := str "Pint";
                make := str "GM/CHEV"; code := str "WA8624";
                color := str "White" |}) /\
  str "WA8624" <> str "" /\
  str "GM/CHEV"
  = join (str " ")
         (drop_brands
            (slice (tokens_of (str "Paint GM/CHEV 0.5 Pint WA8624 White"))
                   1 2)).
Proof.
  assert (H1 : parsePaintLineFlexible
                 (str "Paint GM/CHEV 0.5 Pint WA8624 White")
               = Ok (Some {| qty := QNum (Num (1 # 2)); unit := str "Pint";
                             make := str "GM/CHEV"; code := str "WA8624";
                             color := str "White" |})).
  { vm_compute. reflexivity. }
  assert (H2 : str "WA8624" <> str "") by discriminate.
  split; [exact H1|]. split; [exact H2|].
  destruct (make_from_spans _ H1 H2)
    as (q & u & c & num & ut & Eq & Eu & Ec & _ & Hfar & _).
  vm_compute in Eq. inversion Eq; subst q num.
  vm_compute in Eu. inversion Eu; subst u ut.
  vm_compute in Ec. inversion Ec; subst c.
  apply (Hfar eq_refl). vm_compute. discriminate.
Defined.

(** * Further properties of the code *)

(** ** The unit normalizer *)

(** X1: normalizing a unit twice is normalizing it once: the canonical
    names are themselves recognized, and an unrecognized token is left as
    it is. *)
Theorem normalizeUnit_idempotent (u : jsstring) :
  normalizeUnit (normalizeUnit u) = normalizeUnit u.
Proof.
  assert (H : normalizeUnit u = str "Pint" \/ normalizeUnit u = str "Quart" \/
              normalizeUnit u = str "Gallon" \/
              (normalizeUnit u = u /\ normalizeUnit u = u)).
  { unfold normalizeUnit.
    destruct (startsWith (toLowerCase u) (str "pint") || _); auto.
    destruct (startsWith (toLowerCase u) (str "quart") || _); auto.
    destruct (startsWith (toLowerCase u) (str "gallon") || _); auto. }
  destruct H as [H|[H|[H|[H _]]]]; rewrite H; auto.
Qed.

(** ** What a parsed paint line holds *)

(** The run of the parser that ends with an item. *)
Lemma parse_Some_inv line it :
  parsePaintLineFlexible line = Ok (Some it) ->
  exists qtyIdx num unitIdx u codeIdx c,
    find_qty (tokens_of line) (anchor_of (tokens_of line))
    = Ok (Some (qtyIdx, num)) /\
    find_unit (tokens_of line) qtyIdx = Ok (Some (unitIdx, u)) /\
    find_code (tokens_of line) (unitIdx + 1) = (codeIdx, c) /\
    it = {| qty := QNum num;
            unit := or_str (or_str (normalizeUnit u) u) (str "");
            make := or_str (make_of (tokens_of line)
                                    (anchor_of (tokens_of line))
                                    qtyIdx unitIdx codeIdx) (str "Unknown");
            code := or_str c (str "");
            color := or_str (color_of (tokens_of line) codeIdx) (str "") |}.
Proof.
  unfold parsePaintLineFlexible.
  destruct (re_test re_paint _) eqn:Ep; cbn [negb]; [|discriminate].
  fold (tokens_of line). fold (anchor_of (tokens_of line)).
  destruct (find_qty _ _) as [[[qtyIdx num]|]|] eqn:Eq; cbn [bind];
    try discriminate.
  destruct (qtyIdx =? -1)%Z; [discriminate|].
  destruct (find_unit _ qtyIdx) as [[[unitIdx u]|]|] eqn:Eu; cbn [bind];
    try discriminate.
  destruct (is_empty u); [discriminate|].
  destruct (find_code _ (unitIdx + 1)) as [codeIdx c] eqn:Ec.
  intros H; inversion H; subst; clear H.
  exists qtyIdx, num, unitIdx, u, codeIdx, c. auto.
Qed.

Lemma unit_word_normalized_nonempty u :
  arr_includes unitWords (toLowerCase u) = true ->
  or_str (or_str (normalizeUnit u) u) (str "") = normalizeUnit u.
Proof.
  intros H. destruct (unit_word_normalized u H) as [-> | [-> | ->]];
    reflexivity.
Qed.

(** X2: the anchors of a parsed line stand in order, each within its
    window: the quantity is read in one of the five tokens after the
    keyword anchor, the unit is one of the three tokens after the quantity,
    and the item holds the number read in the one and the normalized form
    of the other. *)
Theorem anchors_in_order (line : jsstring) (it : item) :
  parsePaintLineFlexible line = Ok (Some it) ->
  exists qtyIdx unitIdx qtok utok,
    (anchor_of (tokens_of line) < qtyIdx <= anchor_of (tokens_of line) + 5)%Z /\
    (qtyIdx < unitIdx <= qtyIdx + 3)%Z /\
    (unitIdx < len (tokens_of line))%Z /\
    at_index (tokens_of line) qtyIdx = Some qtok /\
    numeric qtok = true /\
    qty it = QNum (parseFloat (cleaned_of qtok)) /\
    at_index (tokens_of line) unitIdx = Some utok /\
    In (toLowerCase utok) unitWords /\
    unit it = normalizeUnit utok.
Proof.
  intros H. apply parse_Some_inv in H
    as (qtyIdx & num & unitIdx & u & codeIdx & c & Eq & Eu & _ & ->).
  apply find_qty_Some in Eq as (Hq & qtok & Hqt & Hn & ->).
  apply find_unit_Some in Eu as (Hu & Hut & Hw).
  exists qtyIdx, unitIdx, qtok, u. cbn [qty unit].
  rewrite (unit_word_normalized_nonempty _ Hw).
  apply arr_includes_In in Hw.
  repeat split; auto; lia.
Qed.

Lemma anchors_in_order_witness :
  parsePaintLineFlexible (str "Paint GM/CHEV 0.5 Pint WA8624 White")
  = Ok (Some {| qty := QNum (Num (1 # 2)); unit := str "Pint";
                make := str "GM/CHEV"; code := str "WA8624";
                color := str "White" |}) /\
  exists qtyIdx unitIdx : Z, (0 < qtyIdx <= 5)%Z /\ (qtyIdx < unitIdx)%Z.
Proof.
  assert (H : parsePaintLineFlexible
                (str "Paint GM/CHEV 0.5 Pint WA8624 White")
              = Ok (Some {| qty := QNum (Num (1 # 2)); unit := str "Pint";
                            make := str "GM/CHEV"; code := str "WA8624";
                            color := str "White" |})).
  { vm_compute. reflexivity. }
  split; [exact H|].
  destruct (anchors_in_order _ H)
    as (qtyIdx & unitIdx & _ & _ & Hq & Hu & _).
  exists qtyIdx, unitIdx. split; [exact Hq|exact (proj1 Hu)].
Defined.

Lemma digits_value_nonneg ip fp : (0 <= decimal ip fp)%Q.
Proof.
  unfold decimal. rewrite Qred_correct. unfold Qle. simpl. lia.
Qed.

Lemma parseFloat_nonneg s q : parseFloat s = Num q -> (0 <= q)%Q.
Proof.
  unfold parseFloat. destruct (span_digits s) as [ip r].
  destruct r as [|c r'].
  - destruct (is_empty ip); [discriminate|].
    intros H; inversion H. apply digits_value_nonneg.
  - destruct (is_char "." c).
    + destruct (span_digits r') as [fp ?].
      destruct (is_empty ip && is_empty fp); [discriminate|].
      intros H; inversion H. apply digits_value_nonneg.
    + destruct (is_empty ip); [discriminate|].
      intros H; inversion H. apply digits_value_nonneg.
Qed.

(** X3: the quantity of a parsed item is a number, never NaN and never the
    blank default, and it is not negative: signs are stripped with the
    other characters before the number is read. *)
Theorem parsed_quantity_is_a_number (line : jsstring) (it : item) :
  parsePaintLineFlexible line = Ok (Some it) ->
  exists q, qty it = QNum (Num q) /\ (0 <= q)%Q.
Proof.
  intros H. apply parse_Some_inv in H
    as (qtyIdx & num & unitIdx & u & codeIdx & c & Eq & _ & _ & ->).
  apply find_qty_Some in Eq as (_ & qtok & _ & Hn & ->).
  unfold numeric in Hn. apply andb_true_iff in Hn as [_ Hn].
  destruct (parseFloat (cleaned_of qtok)) as [|q] eqn:E; [discriminate|].
  exists q. split; [reflexivity|]. eapply parseFloat_nonneg; eauto.
Qed.

Lemma parsed_quantity_is_a_number_witness :
  parsePaintLineFlexible (str "Paint -2 qt a5g") 
  = Ok (Some {| qty := QNum (Num 2%Q); unit := str "Quart";
                make := str "Unknown"; code := str "a5g";
                color := str "" |}) /\
  exists q, QNum (Num 2%Q) = QNum (Num q) /\ (0 <= q)%Q.
Proof.
  assert (H : parsePaintLineFlexible (str "Paint -2 qt a5g") 
              = Ok (Some {| qty := QNum (Num 2%Q); unit := str "Quart";
                            make := str "Unknown"; code := str "a5g";
                            color := str "" |})).
  { vm_compute. reflexivity. }
  split; [exact H|]. exact (parsed_quantity_is_a_number _ H).
Defined.

Lemma scan_code_Some_full test tokens i n j tok :
  scan_code test tokens i n = Some (j, tok) ->
  (i <= j < i + Z.of_nat n)%Z /\ tok = to_string (at_index tokens j) /\
  test tok = true.
Proof.
  revert i; induction n as [|n IH]; intros i; simpl; [discriminate|].
  destruct (test (to_string (at_index tokens i))) eqn:E.
  - intros H; inversion H; subst. repeat split; auto; lia.
  - intros H. apply IH in H as (Hj & Ht & Htest). repeat split; auto; lia.
Qed.

(** What the code search returns: nothing, or a token of the remainder
    that has one of the two shapes. *)
Lemma find_code_result tokens from i c :
  (0 <= from)%Z -> find_code tokens from = (i, c) ->
  (i = (-1)%Z /\ c = str "") \/
  ((from <= i < len tokens)%Z /\ at_index tokens i = Some c /\
   (wa_code c \/ short_code c)).
Proof.
  intros Hfrom. unfold find_code.
  assert (Hin : forall test j tok,
    scan_code test tokens from (Z.to_nat (len tokens - from)) = Some (j, tok) ->
    (from <= j < len tokens)%Z /\ at_index tokens j = Some tok /\
    test tok = true).
  { intros test j tok H. apply scan_code_Some_full in H as (Hj & Ht & Htest).
    assert (Hr : (from <= j < len tokens)%Z) by lia.
    destruct (@at_index_Some _ tokens j) as [x Hx]; [lia|].
    rewrite Hx in Ht. simpl in Ht. subst x. auto. }
  destruct (scan_code (re_test_whole re_wa) _ _ _) as [[j t]|] eqn:E1.
  { intros H; inversion H; subst. right.
    apply Hin in E1 as (Hj & Ht & Htest). apply wa_code_test in Htest. auto. }
  destruct (scan_code (re_test_whole re_short) _ _ _) as [[j t]|] eqn:E2.
  { intros H; inversion H; subst. right.
    apply Hin in E2 as (Hj & Ht & Htest). apply short_code_test in Htest.
    auto. }
  intros H; inversion H; auto.
Qed.

Lemma short_code_nonempty c : wa_code c \/ short_code c -> c <> [].
Proof.
  intros [(w & a & ds & -> & _)|[Hl _]]; [discriminate|].
  destruct c; [simpl in Hl; lia|discriminate].
Qed.

(** X4: the code of a parsed item is a token of the line that stands after
    the unit token and has the WA shape or the short alphanumeric shape; or
    else no code was found, and then the code and the color are empty and
    the make is "Unknown". *)
Theorem parsed_code_is_a_token (line : jsstring) (it : item) :
  parsePaintLineFlexible line = Ok (Some it) ->
  (code it = str "" /\ make it = str "Unknown" /\ color it = str "") \/
  (exists unitIdx utok codeIdx,
     at_index (tokens_of line) unitIdx = Some utok /\
     In (toLowerCase utok) unitWords /\
     (unitIdx < codeIdx)%Z /\
     at_index (tokens_of line) codeIdx = Some (code it) /\
     (wa_code (code it) \/ short_code (code it))).
Proof.
  intros H. apply parse_Some_inv in H
    as (qtyIdx & num & unitIdx & u & codeIdx & c & Eq & Eu & Ec & ->).
  apply find_qty_Some in Eq as (Hq & _).
  apply find_unit_Some in Eu as (Hu & Hut & Hw).
  pose proof (anchor_range (tokens_of line)) as Ha.
  apply find_code_result in Ec as [[-> ->]|(Hc & Hct & Hshape)]; [| |lia].
  - left. repeat split.
  - right. exists unitIdx, u, codeIdx. cbn [code].
    rewrite (or_str_nonempty _ (short_code_nonempty Hshape)).
    apply arr_includes_In in Hw. repeat split; auto; lia.
Qed.

Lemma parsed_code_is_a_token_witness :
  parsePaintLineFlexible (str "Paint 1 Gal ---")
  = Ok (Some {| qty := QNum (Num 1%Q); unit := str "Gallon";
                make := str "Unknown"; code := str ""; color := str "" |}) /\
  parsePaintLineFlexible (str "Paint 2 Quarts k3g 122.00 122.00")
  = Ok (Some {| qty := QNum (Num 2%Q); unit := str "Quart";
                make := str "Unknown"; code := str "k3g";
                color := str "122.00" |}) /\
  exists i, at_index (tokens_of (str "Paint 2 Quarts k3g 122.00 122.00")) i
            = Some (str "k3g").
Proof.
  assert (H : parsePaintLineFlexible (str "Paint 2 Quarts k3g 122.00 122.00")
              = Ok (Some {| qty := QNum (Num 2%Q); unit := str "Quart";
                            make := str "Unknown"; code := str "k3g";
                            color := str "122.00" |})).
  { vm_compute. reflexivity. }
  split; [vm_compute; reflexivity|]. split; [exact H|].
  destruct (parsed_code_is_a_token _ H)
    as [[Hc _]|(unitIdx & utok & codeIdx & _ & _ & _ & Hi & _)].
  - discriminate Hc.
  - exists codeIdx. exact Hi.
Defined.

(** ** The header fields *)








(** X7: a supplier that is not empty is one of the first ten non-empty
    trimmed lines of the text, holds none of the markers of the skip list
    in any casing ("ga" among them, so no line with these two letters in a
    row is ever the supplier) and has at least four letters. *)
Theorem supplier_is_an_accepted_line (text s : jsstring) :
  extractSupplier text = Ok s -> s <> str "" ->
  In s (firstn 10 (lines_of text)) /\
  (forall m, In m skip_markers -> includes (toLowerCase s) m = false) /\
  (4 <= letters s)%Z.
Proof.
  rewrite extractSupplier_find.
  destruct (find qualifies _) as [l|] eqn:E.
  - intros H _; inversion H; subst. apply find_some in E as [Hl Hq].
    unfold qualifies in Hq. apply andb_true_iff in Hq as [Hm Hn].
    rewrite forallb_forall in Hm. repeat split; auto.
    + intros m Hin. specialize (Hm m Hin). now apply negb_true_iff in Hm.
    + now apply Z.leb_le.
  - intros H Hne; inversion H; subst. now elim Hne.
Qed.

Lemma supplier_is_an_accepted_line_witness :
  extractSupplier (str "Morgan Auto Paint" ++ nl ++ str "  ACME Supply ")
  = Ok (str "ACME Supply") /\
  includes (toLowerCase (str "ACME Supply")) (str "ga") = false.
Proof.
  assert (H : extractSupplier
                (str "Morgan Auto Paint" ++ nl ++ str "  ACME Supply ")
              = Ok (str "ACME Supply")).
  { vm_compute. reflexivity. }
  split; [exact H|].
  refine (proj1 (proj2 (@supplier_is_an_accepted_line _ _ H _)) (str "ga") _).
  - discriminate.
  - unfold skip_markers. simpl. tauto.
Defined.

(** X8: the notes of an answer are never empty: a non-empty transcript
    gives formatted items, paint lines or a non-empty excerpt, and the
    empty transcript gives the fixed sentence. *)
Theorem notes_never_empty (number_to_string : jsnum -> jsstring)
        (text : jsstring) (s : summary) :
  handler_summary number_to_string text = Ok s -> notes s <> str "".
Proof.
  unfold handler_summary. destruct text as [|c text]; cbn [is_empty].
  - intros H; inversion H; subst. discriminate.
  - unfold parsed_summary.
    destruct (extractSupplier (c :: text)); [|discriminate].
    destruct (extractTotal (c :: text)); [|discriminate].
    destruct (formatPaintItems number_to_string (c :: text)) as [f|];
      [|discriminate].
    cbn [bind]. intros H; inversion H; subst; clear H. cbn [notes].
    destruct f as [|x f]; [|discriminate].
    destruct (extractPaintLinesFallback (c :: text)); discriminate.
Qed.

Lemma notes_never_empty_witness :
  handler_summary (fun _ => str "") (str "")
  = Ok {| supplier := str ""; invoice_number := Some (str "");
          cost := None; notes := str "No text detected" |} /\
  str "No text detected" <> str "".
Proof.
  assert (H : handler_summary (fun _ => str "") (str "")
              = Ok {| supplier := str ""; invoice_number := Some (str "");
                      cost := None; notes := str "No text detected" |}).
  { reflexivity. }
  split; [exact H|]. exact (notes_never_empty _ _ H).
Defined.

(** ** The data-URI header of an image *)






(** ** White space *)

Lemma collapse_fixed b s :
  spaced b s = true ->
  Forall (fun c => is_space c = true -> c = " "%char) s ->
  collapse_aux b s = s.
Proof.
  intros Hs Ho. revert b Hs.
  induction Ho as [|c s Hc Ho IH]; intros b Hs; simpl in *; auto.
  destruct (is_space c) eqn:E.
  - apply andb_true_iff in Hs as [Hb Hs]. destruct b; [discriminate|].
    rewrite (Hc eq_refl), (IH _ Hs). reflexivity.
  - now rewrite (IH _ Hs).
Qed.

Lemma trim_end_prefix s : exists r, s = trim_end s ++ r.
Proof.
  induction s as [|c s [r IH]].
  - now exists [].
  - rewrite trim_end_cons. destruct (trim_end s) as [|y t] eqn:E.
    + destruct (is_space c); [now exists (c :: s)|].
      exists s. reflexivity.
    + exists r. simpl. now rewrite IH at 1.
Qed.

Lemma spaced_prefix b a r : spaced b (a ++ r) = true -> spaced b a = true.
Proof.
  revert b; induction a as [|c a IH]; intros b; simpl; auto.
  destruct (is_space c).
  - intros H. apply andb_true_iff in H as [-> H]. simpl. eauto.
  - eauto.
Qed.

Lemma trim_start_fixed b s :
  well_spaced true s = true ->
  Forall (fun c => is_space c = true -> c = " "%char) s ->
  b = true -> trim_start s = s.
Proof.
  intros Hw Ho _. destruct s as [|c s]; simpl in *; auto.
  inversion Ho as [|? ? Hc _]; subst.
  destruct (is_space c) eqn:E; auto.
  rewrite (Hc eq_refl) in Hw. simpl in Hw. discriminate.
Qed.

Lemma trim_end_fixed b s :
  well_spaced b s = true ->
  Forall (fun c => is_space c = true -> c = " "%char) s ->
  trim_end s = s.
Proof.
  intros Hw Ho. revert b Hw.
  induction Ho as [|c s Hc Ho IH]; intros b Hw; auto.
  rewrite trim_end_cons. cbn [well_spaced] in Hw.
  destruct (Ascii.eqb_spec c " ") as [->|Hsp].
  - apply andb_true_iff in Hw as [_ Hw]. rewrite (IH _ Hw).
    destruct s; [discriminate|reflexivity].
  - rewrite (IH _ Hw).
    assert (E : is_space c = false).
    { destruct (is_space c); auto. now elim Hsp; apply Hc. }
    rewrite E. destruct s; reflexivity.
Qed.

(** The normal form of a line has only single spaces as white space, and
    none at its ends. *)
Lemma normal_form line :
  let t := trim (collapse_spaces line) in
  spaced false t = true /\
  Forall (fun c => is_space c = true -> c = " "%char) t /\
  (t <> [] -> well_spaced true t = true).
Proof.
  cbv zeta.
  change (trim (collapse_spaces line))
    with (trim_end (trim_start (collapse_spaces line))).
  set (u := trim_start (collapse_spaces line)).
  assert (Hu : forall b, spaced b u = true).
  { intros b. apply spaced_trim_start with (b := false). apply spaced_collapse. }
  assert (Ho : Forall (fun c => is_space c = true -> c = " "%char) u).
  { apply only_spaces_trim_start. apply only_spaces_collapse. }
  destruct (trim_end_prefix u) as [r Hr].
  split; [|split].
  - apply spaced_prefix with (r := r). rewrite <- Hr. apply Hu.
  - rewrite Hr in Ho. now apply Forall_app in Ho as [Ho _].
  - intros Hne. apply well_spaced_trim_end; auto.
Qed.

Lemma normalize_idempotent line :
  trim (collapse_spaces (trim (collapse_spaces line)))
  = trim (collapse_spaces line).
Proof.
  destruct (normal_form line) as (Hs & Ho & Hw).
  revert Hs Ho Hw. generalize (trim (collapse_spaces line)). intros t Hs Ho Hw.
  unfold collapse_spaces. rewrite (collapse_fixed _ Hs Ho).
  destruct t as [|c t']; [reflexivity|].
  specialize (Hw ltac:(discriminate)).
  change (trim (c :: t')) with (trim_end (trim_start (c :: t'))).
  rewrite (trim_start_fixed Hw Ho eq_refl).
  apply (trim_end_fixed _ Hw Ho).
Qed.

Lemma trim_start_spaces p s :
  forallb is_space p = true -> trim_start (p ++ s) = trim_start s.
Proof.
  induction p as [|c p IH]; simpl; auto.
  intros H. apply andb_true_iff in H as [-> H]. auto.
Qed.

Lemma trim_start_collapse_pad b b' pad s :
  forallb is_space pad = true ->
  trim_start (collapse_aux b (pad ++ s)) = trim_start (collapse_aux b' s).
Proof.
  revert b. induction pad as [|c pad IH]; intros b H; simpl.
  - clear H. revert b b'. induction s as [|c s IH]; intros b b'; simpl; auto.
    destruct (is_space c) eqn:E.
    + destruct b, b'; simpl; auto.
    + simpl. now rewrite E.
  - simpl in H. apply andb_true_iff in H as [-> H].
    destruct b; simpl; auto.
Qed.

Lemma collapse_all_spaces b pad :
  forallb is_space pad = true -> forallb is_space (collapse_aux b pad) = true.
Proof.
  revert b; induction pad as [|c pad IH]; intros b H; simpl; auto.
  simpl in H. apply andb_true_iff in H as [-> H].
  destruct b; simpl; auto.
Qed.

Lemma collapse_trailing_pad b s pad :
  forallb is_space pad = true ->
  exists tl, forallb is_space tl = true /\
             collapse_aux b (s ++ pad) = collapse_aux b s ++ tl.
Proof.
  intros H. revert b. induction s as [|c s IH]; intros b; simpl.
  - exists (collapse_aux b pad). split; auto. now apply collapse_all_spaces.
  - destruct (is_space c).
    + destruct b; destruct (IH true) as (tl & Htl & ->); exists tl; auto.
    + destruct (IH false) as (tl & Htl & ->); exists tl; auto.
Qed.

Lemma trim_start_trailing x tl :
  forallb is_space tl = true ->
  trim_start (x ++ tl)
  = match trim_start x with [] => [] | t => t ++ tl end.
Proof.
  intros H. induction x as [|c x IH]; simpl.
  - rewrite <- (app_nil_r tl). rewrite trim_start_spaces by auto. reflexivity.
  - destruct (is_space c); auto.
Qed.

Lemma trim_trailing x tl :
  forallb is_space tl = true -> trim (x ++ tl) = trim x.
Proof.
  intros H. unfold trim. rewrite trim_start_trailing by auto.
  destruct (trim_start x) as [|c t]; [reflexivity|].
  rewrite rev_app_distr. rewrite trim_start_spaces; [reflexivity|].
  rewrite forallb_forall in *. intros y Hy. apply H. now apply in_rev.
Qed.

Lemma normalize_padded pad1 line pad2 :
  forallb is_space pad1 = true -> forallb is_space pad2 = true ->
  trim (collapse_spaces (pad1 ++ line ++ pad2)) = trim (collapse_spaces line).
Proof.
  intros H1 H2. unfold collapse_spaces.
  destruct (collapse_trailing_pad false line pad2 H2) as (tl & Htl & E).
  rewrite <- (trim_trailing (collapse_aux false line) tl Htl), <- E.
  unfold trim.
  now rewrite (trim_start_collapse_pad false false pad1 (line ++ pad2) H1).
Qed.

(** X10: the paint line parser sees a line through its normal form only:
    white space around the line, tabs and line breaks included, changes
    nothing in the result, and parsing the normal form of a line gives
    what parsing the line gives. *)
Theorem parse_ignores_padding (line : jsstring) :
  parsePaintLineFlexible (trim (collapse_spaces line))
  = parsePaintLineFlexible line /\
  forall pad1 pad2,
    forallb is_space pad1 = true -> forallb is_space pad2 = true ->
    parsePaintLineFlexible (pad1 ++ line ++ pad2)
    = parsePaintLineFlexible line.
Proof.
  unfold parsePaintLineFlexible. split.
  - now rewrite normalize_idempotent.
  - intros pad1 pad2 H1 H2. now rewrite normalize_padded.
Qed.

Lemma parse_ignores_padding_witness :
  forallb is_space (" "%char :: "009"%char :: nil) = true /\
  forallb is_space ("013"%char :: nl) = true /\
  parsePaintLineFlexible
    ((" "%char :: "009"%char :: nil) ++ str "Paint 1 qt a5g Red"
     ++ "013"%char :: nl)
  = parsePaintLineFlexible (str "Paint 1 qt a5g Red").
Proof.
  split; [reflexivity|]. split; [reflexivity|].
  exact (proj2 (parse_ignores_padding (str "Paint 1 qt a5g Red"))
               (" "%char :: "009"%char :: nil) ("013"%char :: nl)
               eq_refl eq_refl).
Defined.

Lemma ci_letter_not_space x c :
  is_letter x = true -> ci x c = true -> is_space c = false.
Proof.
  intros Hx Hc.
  destruct c as [[] [] [] [] [] [] [] []]; try reflexivity;
    destruct x as [[] [] [] [] [] [] [] []]; vm_compute in Hx, Hc;
    discriminate.
Qed.

Lemma lit_i_not_space w mid :
  forallb is_letter w = true -> lang (lit_i w) mid ->
  forallb (fun c => negb (is_space c)) mid = true /\ length mid = length w.
Proof.
  revert mid; induction w as [|x w IH]; intros mid Hw HL; simpl in *.
  - inversion HL; subst. auto.
  - apply andb_true_iff in Hw as [Hx Hw]. destruct w as [|y w].
    + inversion HL as [|? c Hc| | | | |]; subst. simpl.
      now rewrite (ci_letter_not_space _ _ Hx Hc).
    + inversion HL as [| | |? ? s1 s2 H1 H2| | |]; subst.
      inversion H1 as [|? c Hc| | | | |]; subst.
      destruct (IH _ Hw H2) as [Hall Hlen]. simpl.
      rewrite (ci_letter_not_space _ _ Hx Hc), Hall, Hlen. auto.
Qed.

Section Keeps.
Variable mid : jsstring.
Hypothesis mid_not_space : forallb (fun c => negb (is_space c)) mid = true.
Hypothesis mid_not_empty : mid <> [].

Lemma collapse_not_space b m s :
  forallb (fun c => negb (is_space c)) m = true -> m <> [] ->
  collapse_aux b (m ++ s) = m ++ collapse_aux false s.
Proof.
  revert b; induction m as [|c m IH]; intros b Hm Hne; [congruence|].
  simpl in *. apply andb_true_iff in Hm as [Hc Hm].
  apply negb_true_iff in Hc. rewrite Hc.
  destruct m as [|d m]; [reflexivity|]. rewrite IH; auto. discriminate.
Qed.

Lemma collapse_keeps b pre post :
  exists pre' post', collapse_aux b (pre ++ mid ++ post) = pre' ++ mid ++ post'.
Proof.
  revert b; induction pre as [|c pre IH]; intros b.
  - exists [], (collapse_aux false post). simpl.
    now apply collapse_not_space.
  - simpl. destruct (is_space c).
    + destruct b.
      * apply IH.
      * destruct (IH true) as (pre' & post' & ->).
        now exists (" "%char :: pre'), post'.
    + destruct (IH false) as (pre' & post' & ->).
      now exists (c :: pre'), post'.
Qed.

Lemma trim_start_keeps pre post :
  exists pre', trim_start (pre ++ mid ++ post) = pre' ++ mid ++ post.
Proof.
  induction pre as [|c pre IH].
  - exists []. destruct mid as [|c m]; [congruence|]. simpl in *.
    apply andb_true_iff in mid_not_space as [Hc _].
    apply negb_true_iff in Hc. now rewrite Hc.
  - simpl. destruct (is_space c); auto. now exists (c :: pre).
Qed.
End Keeps.

Lemma trim_keeps mid pre post :
  forallb (fun c => negb (is_space c)) mid = true -> mid <> [] ->
  exists pre' post', trim (pre ++ mid ++ post) = pre' ++ mid ++ post'.
Proof.
  intros Hm Hne. unfold trim.
  destruct (trim_start_keeps Hm Hne pre post) as (pre' & ->).
  rewrite !rev_app_distr, <- app_assoc.
  assert (Hr : forallb (fun c => negb (is_space c)) (rev mid) = true).
  { rewrite forallb_forall in *. intros y Hy. apply Hm. now apply in_rev. }
  assert (Hrne : rev mid <> []).
  { intros E. apply Hne. rewrite <- (rev_involutive mid), E. reflexivity. }
  destruct (trim_start_keeps Hr Hrne (rev post) (rev pre')) as (post' & ->).
  exists pre', (rev post').
  now rewrite !rev_app_distr, !rev_involutive, <- app_assoc.
Qed.

Lemma paint_kept (line : jsstring) :
  re_test re_paint line = true ->
  re_test re_paint (trim (collapse_spaces line)) = true.
Proof.
  rewrite !re_test_occurs. intros (pre & mid & post & -> & HL).
  destruct (lit_i_not_space (str "paint") eq_refl HL) as [Hm Hlen].
  assert (Hne : mid <> []) by (intros ->; discriminate).
  unfold collapse_spaces.
  destruct (collapse_keeps Hm Hne false pre post) as (pre1 & post1 & ->).
  destruct (trim_keeps pre1 post1 Hm Hne) as (pre2 & post2 & ->).
  now exists pre2, mid, post2.
Qed.

(** X11: a line that mentions "paint" still mentions it in its normal
    form: the test of the parser on the normalized line never rejects a
    line that passed the test of its caller. *)
Theorem paint_survives_normalization (line : jsstring) :
  re_test re_paint line = true ->
  re_test re_paint (trim (collapse_spaces line)) = true.
Proof. apply paint_kept. Qed.

Lemma paint_survives_normalization_witness :
  re_test re_paint (str "  Spray   PAINT  1  qt") = true /\
  re_test re_paint (trim (collapse_spaces (str "  Spray   PAINT  1  qt")))
  = true.
Proof.
  assert (H : re_test re_paint (str "  Spray   PAINT  1  qt") = true).
  { vm_compute. reflexivity. }
  split; [exact H|]. exact (paint_survives_normalization _ H).
Defined.

(** ** The earlier revision of the parser *)

Lemma class_i_alnum c :
  class_i (fun c => between 97 122 c || is_digit c) c = is_alnum c.
Proof. destruct c as [[] [] [] [] [] [] [] []]; vm_compute; reflexivity. Qed.

Lemma short_code_test_i tok :
  re_test_whole Rev2.re_short_i tok = true <-> short_code tok.
Proof.
  rewrite <- short_code_test, !re_test_whole_lang.
  unfold Rev2.re_short_i, re_short, times.
  assert (E : forallb (class_i (fun c => between 97 122 c || is_digit c)) tok
              = forallb is_alnum tok).
  { induction tok as [|c tok IH]; simpl; auto.
    now rewrite class_i_alnum, IH. }
  split; intros H; inversion H as [| |? ? ? ? Hall Hlo Hhi| | | |]; subst;
    constructor; auto; congruence.
Qed.

Lemma rev2_code_test tok :
  Rev2.code_test tok = true <-> wa_code tok \/ short_code tok.
Proof.
  unfold Rev2.code_test, Rev2.codeRegexes. cbn [existsb].
  rewrite orb_false_r, orb_true_iff, wa_code_test, short_code_test_i.
  reflexivity.
Qed.

(** X12: the code search of the earlier revision has no preference between
    the two shapes: the first token of the remainder that has the WA shape
    or the short alphanumeric shape is the code.  Where a token of the
    short shape stands before the first token of the WA shape, the two
    revisions disagree: the later one returns the WA token. *)
Theorem rev2_code_is_first_of_either (tokens : list jsstring) (from : Z) :
  (forall i tok,
     first_from (fun t => wa_code t \/ short_code t) tokens from i tok ->
     Rev2.find_code tokens from = (i, tok)) /\
  (none_from (fun t => wa_code t \/ short_code t) tokens from ->
   Rev2.find_code tokens from = ((-1)%Z, str "")) /\
  (forall i tok j tok',
     first_from (fun t => wa_code t \/ short_code t) tokens from i tok ->
     first_from wa_code tokens from j tok' -> (i < j)%Z ->
     Rev2.find_code tokens from = (i, tok) /\
     find_code tokens from = (j, tok')).
Proof.
  assert (H1 : forall i tok,
     first_from (fun t => wa_code t \/ short_code t) tokens from i tok ->
     Rev2.find_code tokens from = (i, tok)).
  { intros i tok (Hi & Ht & HP & Hk). pose proof (at_index_range _ _ Ht).
    unfold Rev2.find_code.
    replace tok with (to_string (at_index tokens i)) by now rewrite Ht.
    rewrite scan_code_first with (j := i); auto; [lia| |].
    - rewrite Ht. now apply rev2_code_test.
    - intros k Hki.
      apply test_at with (P := fun t => wa_code t \/ short_code t);
        [vm_compute; reflexivity| |].
      + apply rev2_code_test.
      + intros t Hkt. now apply (Hk k). }
  split; [exact H1|]. split.
  - intros Hn. unfold Rev2.find_code. rewrite scan_code_none; auto.
    intros k Hk.
    apply test_at with (P := fun t => wa_code t \/ short_code t);
      [vm_compute; reflexivity| |].
    + apply rev2_code_test.
    + intros t Hkt. apply (Hn k); auto; lia.
  - intros i tok j tok' Hi (Hj & Ht & HP & Hk) _.
    split; [now apply H1|]. pose proof (at_index_range _ _ Ht).
    unfold find_code.
    replace tok' with (to_string (at_index tokens j)) by now rewrite Ht.
    rewrite scan_code_first with (j := j); auto; [lia| |].
    + rewrite Ht. now apply wa_code_test.
    + intros k Hkj. apply test_at with (P := wa_code); [reflexivity| |].
      * apply wa_code_test.
      * intros t Hkt. now apply (Hk k).
Qed.

Lemma rev2_code_is_first_of_either_witness :
  first_from (fun t => wa_code t \/ short_code t)
             (map str ["--"; "k3g"; "WA8624"]%string) 0 1 (str "k3g") /\
  first_from wa_code (map str ["--"; "k3g"; "WA8624"]%string) 0 2
             (str "WA8624") /\
  Rev2.find_code (map str ["--"; "k3g"; "WA8624"]%string) 0
  = (1%Z, str "k3g") /\
  find_code (map str ["--"; "k3g"; "WA8624"]%string) 0 = (2%Z, str "WA8624").
Proof.
  assert (H1 : first_from (fun t => wa_code t \/ short_code t)
                 (map str ["--"; "k3g"; "WA8624"]%string) 0 1 (str "k3g")).
  { repeat split; try lia.
    - apply rev2_code_test. vm_compute. reflexivity.
    - intros j t Hj E. assert (j = 0%Z) as -> by lia. inv E.
      rewrite <- rev2_code_test. vm_compute. discriminate. }
  assert (H2 : first_from wa_code (map str ["--"; "k3g"; "WA8624"]%string)
                 0 2 (str "WA8624")).
  { repeat split; try lia.
    - apply wa_code_test. reflexivity.
    - intros j t Hj E. assert (Hc : j = 0%Z \/ j = 1%Z) by lia.
      rewrite <- wa_code_test.
      destruct Hc as [-> | ->]; inv E; vm_compute; discriminate. }
  split; [exact H1|]. split; [exact H2|].
  exact (proj2 (proj2 (rev2_code_is_first_of_either _ 0)) _ _ _ _ H1 H2
               ltac:(lia)).
Defined.

Lemma rev2_find_qty_total tokens startIdx :
  (0 <= startIdx)%Z -> exists r, Rev2.find_qty tokens startIdx = Ok r.
Proof.
  intros H. unfold Rev2.find_qty, for_range. apply loop_from_total.
  intros j Hj.
  destruct (@at_index_Some _ tokens j) as [tok ->]; [lia|]. cbn [bind receiver].
  destruct (negb (isNaN (parseFloat (cleaned_of tok)))); eauto.
Qed.

Lemma rev2_find_qty_Some tokens startIdx i num :
  Rev2.find_qty tokens startIdx = Ok (Some (i, num)) ->
  (startIdx + 1 <= i < len tokens)%Z.
Proof.
  unfold Rev2.find_qty, for_range. intros H.
  apply loop_from_Some in H as (j & Hj & Hb & _).
  destruct (at_index tokens j) as [tok|] eqn:E; cbn [bind receiver] in Hb;
    [|discriminate].
  destruct (negb (isNaN (parseFloat (cleaned_of tok)))); [|discriminate].
  inversion Hb; subst. lia.
Qed.

(** The run of the earlier parser on a line whose normal form mentions
    "paint": it ends with an item, whose unit is the normalized form of a
    unit token, of a unit word found in the quantity token, or of the empty
    string. *)
Lemma rev2_parse_run line :
  re_test re_paint (trim (collapse_spaces line)) = true ->
  exists it u,
    Rev2.parsePaintLineFlexible line = Ok (Some it) /\
    unit it = or_str (or_str (normalizeUnit (or_str u (str ""))) u) (str "") /\
    (u = str "" \/ In (toLowerCase u) unitWords).
Proof.
  intros Hp. unfold Rev2.parsePaintLineFlexible. rewrite Hp. cbn [negb].
  fold (tokens_of line). fold (anchor_of (tokens_of line)).
  pose proof (anchor_range (tokens_of line)) as Ha.
  destruct (rev2_find_qty_total (tokens_of line) Ha) as [q Hq]. rewrite Hq.
  cbn [bind]. destruct q as [[qtyIdx num]|].
  - apply rev2_find_qty_Some in Hq.
    replace (qtyIdx =? -1)%Z with false by (symmetry; apply Z.eqb_neq; lia).
    cbn [negb].
    destruct (find_unit_total (tokens_of line) (qtyIdx := qtyIdx)) as [u Hu];
      [lia|].
    rewrite Hu. cbn [bind]. destruct u as [[unitIdx u]|].
    + apply find_unit_Some in Hu as (_ & _ & Hw).
      assert (Hne : is_empty u = false).
      { destruct u; [discriminate Hw|reflexivity]. }
      rewrite Hne. cbn [andb bind].
      destruct (Rev2.find_code _ _) as [codeIdx c].
      eexists. exists u. split; [reflexivity|]. split; [reflexivity|].
      right. now apply arr_includes_In.
    + cbn [is_empty str list_ascii_of_string andb].
      destruct (@at_index_Some _ (tokens_of line) qtyIdx) as [tok ->]; [lia|].
      cbn [bind receiver].
      destruct (Rev2.find_code _ _) as [codeIdx c].
      eexists. exists (Rev2.embedded_unit (toLowerCase tok) []).
      split; [reflexivity|]. split; [reflexivity|].
      unfold Rev2.embedded_unit.
      destruct (find _ unitWords) as [uw|] eqn:E; [|now left].
      right. apply find_some in E as [Hin _].
      unfold unitWords in *. simpl in Hin |- *.
      repeat (destruct Hin as [<-|Hin]; [tauto|]). destruct Hin.
  - change ((-1 =? -1)%Z) with true.
    cbn [negb bind andb is_empty str list_ascii_of_string].
    match goal with
    | |- context [Rev2.find_code ?a ?b] =>
        destruct (Rev2.find_code a b) as [codeIdx c]
    end.
    eexists. exists []. split; [reflexivity|]. split; [reflexivity|].
    now left.
Qed.

(** X13: the earlier parser never throws and never rejects a line that
    mentions "paint": it returns an item for it, also when the line holds
    no quantity and no unit, where the later revision returns no item. *)
Theorem rev2_parser_never_rejects (line : jsstring) :
  (exists r, Rev2.parsePaintLineFlexible line = Ok r) /\
  (re_test re_paint line = true ->
   exists it, Rev2.parsePaintLineFlexible line = Ok (Some it)) /\
  (re_test re_paint (trim (collapse_spaces line)) = false ->
   Rev2.parsePaintLineFlexible line = Ok None).
Proof.
  split; [|split].
  - destruct (re_test re_paint (trim (collapse_spaces line))) eqn:E.
    + destruct (rev2_parse_run line E) as (it & _ & -> & _). eauto.
    + unfold Rev2.parsePaintLineFlexible. rewrite E. cbn [negb]. eauto.
  - intros H. apply paint_kept in H.
    destruct (rev2_parse_run line H) as (it & _ & -> & _). eauto.
  - intros E. unfold Rev2.parsePaintLineFlexible. now rewrite E.
Qed.

Lemma rev2_parser_never_rejects_witness :
  re_test re_paint (str "Paint Job Special") = true /\
  parsePaintLineFlexible (str "Paint Job Special") = Ok None /\
  exists it, Rev2.parsePaintLineFlexible (str "Paint Job Special")
             = Ok (Some it).
Proof.
  assert (H : re_test re_paint (str "Paint Job Special") = true).
  { vm_compute. reflexivity. }
  split; [exact H|]. split; [vm_compute; reflexivity|].
  exact (proj1 (proj2 (rev2_parser_never_rejects _)) H).
Defined.

(** X14: the unit of an item of the earlier parser is "Pint", "Quart" or
    "Gallon", or empty when neither a unit token nor a unit word inside the
    quantity token was found; it is never a raw token. *)
Theorem rev2_unit_canonical_or_empty (line : jsstring) (it : item) :
  Rev2.parsePaintLineFlexible line = Ok (Some it) ->
  unit it = str "Pint" \/ unit it = str "Quart" \/ unit it = str "Gallon" \/
  unit it = str "".
Proof.
  intros H.
  destruct (re_test re_paint (trim (collapse_spaces line))) eqn:E.
  - destruct (rev2_parse_run line E) as (it' & u & H' & Hu & Hc).
    rewrite H' in H. inversion H; subst it'. rewrite Hu.
    destruct Hc as [->|Hc]; [now repeat right|].
    apply arr_includes_In in Hc.
    assert (Hne : u <> []) by (intros ->; discriminate Hc).
    rewrite (or_str_nonempty _ Hne).
    rewrite (unit_word_normalized_nonempty _ Hc).
    destruct (unit_word_normalized u Hc) as [->|[->| ->]]; auto.
  - unfold Rev2.parsePaintLineFlexible in H. rewrite E in H. discriminate.
Qed.

Lemma rev2_unit_canonical_or_empty_witness :
  Rev2.parsePaintLineFlexible (str "Paint 0.5pint k3g White")
  = Ok (Some {| qty := QNum (Num (1 # 2)); unit := str "Pint";
                make := str "Unknown"; code := str "k3g";
                color := str "White" |}) /\
  (str "Pint" = str "Pint" \/ str "Pint" = str "Quart" \/
   str "Pint" = str "Gallon" \/ str "Pint" = str "").
Proof.
  assert (H : Rev2.parsePaintLineFlexible (str "Paint 0.5pint k3g White")
              = Ok (Some {| qty := QNum (Num (1 # 2)); unit := str "Pint";
                            make := str "Unknown"; code := str "k3g";
                            color := str "White" |})).
  { vm_compute. reflexivity. }
  split; [exact H|]. exact (rev2_unit_canonical_or_empty _ H).
Defined.

Lemma format_item_nonempty (number_to_string : jsnum -> jsstring) it :
  format_item number_to_string it <> [].
Proof.
  unfold format_item. destruct (make it); discriminate.
Qed.

(** The lines the earlier formatter pushes: one for each line that mentions
    "paint". *)
Lemma rev2_format_lines (number_to_string : jsnum -> jsstring) lines :
  exists items,
    Rev2.format_lines number_to_string lines = Ok items /\
    Forall (fun t => t <> []) items /\
    length items = length (filter (re_test re_paint) lines).
Proof.
  induction lines as [|line rest (items & IH & Hall & Hlen)]; simpl.
  - exists []. auto.
  - destruct (re_test re_paint line) eqn:E; cbn [negb].
    + apply paint_kept in E.
      destruct (rev2_parse_run line E) as (it & _ & -> & _).
      rewrite IH. cbn [bind].
      exists (format_item number_to_string it :: items).
      repeat split; auto; [|simpl; lia].
      constructor; auto. apply format_item_nonempty.
    + exists items. auto.
Qed.

(** X15: in the earlier revision the tier of the paint lines kept as they
    are is never used: every line that mentions "paint" gives a formatted
    item, so the notes are the formatted items, one for each such line, or,
    when no line mentions "paint", the first 800 characters of the text. *)
Theorem rev2_notes_two_tiers (number_to_string : jsnum -> jsstring)
        (text : jsstring) :
  exists f s,
    Rev2.formatPaintItems number_to_string text = Ok f /\
    Rev2.parsed_summary number_to_string text = Ok s /\
    ((f <> str "" /\ Rev2.extractLineItems text <> str "" /\ notes s = f) \/
     (f = str "" /\ Rev2.extractLineItems text = str "" /\
      notes s = firstn 800 text)).
Proof.
  destruct (rev2_format_lines number_to_string (lines_of text))
    as (items & Hi & Hall & Hlen).
  destruct (extractSupplier_total text) as [sup Hsup].
  assert (Hc : exists c, extractTotal text = Ok c).
  { destruct (extractTotal_total text) as [->|[q ->]]; eauto. }
  destruct Hc as [c Hc].
  unfold Rev2.parsed_summary, Rev2.formatPaintItems, Rev2.extractLineItems.
  rewrite Hsup, Hc, Hi. cbn [bind].
  destruct items as [|x items].
  - cbn [len length Z.of_nat Z.eqb bind].
    destruct (filter (re_test re_paint) (lines_of text)); [|discriminate].
    eexists. eexists. split; [reflexivity|]. split; [reflexivity|].
    right. repeat split.
  - replace (len (x :: items) =? 0)%Z with false
      by (symmetry; apply Z.eqb_neq; unfold len; simpl length; lia).
    cbn [bind].
    eexists. eexists. split; [reflexivity|]. split; [reflexivity|].
    left. cbn [notes].
    assert (Hj : join nl (x :: items) <> []).
    { apply join_nonempty; [discriminate|assumption]. }
    split; [exact Hj|]. split.
    + apply join_nonempty.
      * intros E. rewrite E in Hlen. discriminate.
      * apply Forall_forall. intros l Hl. apply filter_In in Hl as [_ Hl].
        intros ->. discriminate.
    + rewrite (or_str_nonempty _ Hj). now rewrite (or_str_nonempty _ Hj).
Qed.

(** ** The formatted items *)



(** ** Casing *)

Section Mapped.
Variable f : ascii -> ascii.
Context {R R' : Type} (g : R -> R').

Lemma consumed_map s s' :
  consumed (map f s) (map f s') = map f (consumed s s').
Proof. unfold consumed. now rewrite !length_map, firstn_map. Qed.

Lemma rep_map p lo hi s (k : jsstring -> option R) (k' : jsstring -> option R') :
  (forall c, p (f c) = p c) ->
  (forall s', k' (map f s') = option_map g (k s')) ->
  rep p lo hi (map f s) k' = option_map g (rep p lo hi s k).
Proof.
  intros Hp Hk. revert lo hi. induction s as [|x s IH]; intros lo hi; simpl.
  - destruct (Nat.eqb lo 0); auto. apply (Hk []).
  - rewrite Hp, IH.
    assert (Hstop : (if Nat.eqb lo 0 then k' (f x :: map f s) else None)
                    = option_map g (if Nat.eqb lo 0 then k (x :: s) else None)).
    { destruct (Nat.eqb lo 0); auto. apply (Hk (x :: s)). }
    destruct (p x && room hi); auto.
    destruct (rep p (pred lo) (option_map pred hi) s k); auto.
Qed.

Lemma bt_map r :
  class_stable f r ->
  forall s c (k : jsstring -> captures -> option R)
         (k' : jsstring -> captures -> option R'),
  (forall s' c', k' (map f s') (map_captures f c') = option_map g (k s' c')) ->
  bt r (map f s) (map_captures f c) k' = option_map g (bt r s c k).
Proof.
  induction r as [|p|p lo hi|r1 IH1 r2 IH2|r1 IH1 r2 IH2|m r IH];
    intros Hr s c k k' Hk; simpl in *.
  - apply Hk.
  - destruct s as [|x s]; simpl; auto. rewrite Hr.
    destruct (p x); auto.
  - apply rep_map; auto.
  - destruct Hr as [H1 H2]. apply IH1; auto.
  - destruct Hr as [H1 H2]. rewrite (IH1 H1 s c k k' Hk).
    destruct (bt r1 s c k); simpl; auto.
  - apply IH; auto. intros s' c'. rewrite consumed_map.
    apply (Hk s' ((m, consumed s s') :: c')).
Qed.
End Mapped.

Lemma capture_map f n c :
  capture n (map_captures f c) = option_map (map f) (capture n c).
Proof.
  induction c as [|[m x] c IH]; simpl; auto.
  destruct (Nat.eqb m n); auto.
Qed.

Lemma bt_here_map f r s :
  class_stable f r ->
  bt r (map f s) [] (fun s' c => Some (consumed (map f s) s', c))
  = option_map (fun mc => (map f (fst mc), map_captures f (snd mc)))
               (bt r s [] (fun s' c => Some (consumed s s', c))).
Proof.
  intros Hr.
  apply (bt_map f (fun mc => (map f (fst mc), map_captures f (snd mc)))
                r Hr s []
                (fun s' c => Some (consumed s s', c))
                (fun s' c => Some (consumed (map f s) s', c))).
  intros s' c'. simpl. now rewrite consumed_map.
Qed.

Lemma re_match_map f r s :
  class_stable f r ->
  re_match r (map f s)
  = option_map (fun mc => (map f (fst mc), map_captures f (snd mc)))
               (re_match r s).
Proof.
  intros Hr. induction s as [|x s IH].
  - change (re_match r (map f [])) with
      (match bt r (map f []) [] (fun s' c => Some (consumed (map f []) s', c))
       with Some m => Some m | None => None end).
    rewrite bt_here_map by assumption. simpl.
    destruct (bt r [] [] _) as [[m c]|]; reflexivity.
  - change (re_match r (map f (x :: s))) with
      (match bt r (map f (x :: s)) []
                (fun s' c => Some (consumed (map f (x :: s)) s', c))
       with Some m => Some m | None => re_match r (map f s) end).
    rewrite bt_here_map by assumption. cbn [re_match].
    destruct (bt r (x :: s) [] _) as [[m c]|]; [reflexivity|]. simpl.
    exact IH.
Qed.

Lemma canonicalize_lower c : canonicalize (lower_char c) = canonicalize c.
Proof. destruct c as [[] [] [] [] [] [] [] []]; reflexivity. Qed.

Lemma ci_lower x c : ci x (lower_char c) = ci x c.
Proof. unfold ci. now rewrite canonicalize_lower. Qed.

Lemma lit_i_stable w : class_stable lower_char (lit_i w).
Proof.
  induction w as [|x w IH]; simpl; auto.
  destruct w as [|y w]; simpl in *.
  - intros c. apply ci_lower.
  - split; auto. intros c. apply ci_lower.
Qed.

Lemma is_space_lower c : is_space (lower_char c) = is_space c.
Proof. destruct c as [[] [] [] [] [] [] [] []]; reflexivity. Qed.

Lemma is_digit_lower c : is_digit (lower_char c) = is_digit c.
Proof. destruct c as [[] [] [] [] [] [] [] []]; reflexivity. Qed.

Lemma is_char_dollar_lower c : is_char "$" (lower_char c) = is_char "$" c.
Proof. destruct c as [[] [] [] [] [] [] [] []]; reflexivity. Qed.

Lemma is_char_dot_lower c : is_char "." (lower_char c) = is_char "." c.
Proof. destruct c as [[] [] [] [] [] [] [] []]; reflexivity. Qed.

Lemma is_char_comma_lower c : is_char "," (lower_char c) = is_char "," c.
Proof. destruct c as [[] [] [] [] [] [] [] []]; reflexivity. Qed.

Lemma amount_stable : class_stable lower_char re_amount.
Proof.
  unfold re_amount, plus, times. cbn [class_stable]. repeat split; intros c.
  - now rewrite is_digit_lower, is_char_comma_lower.
  - apply is_char_dot_lower.
  - apply is_digit_lower.
Qed.

Lemma total_stable : class_stable lower_char re_total.
Proof.
  unfold re_total, star, opt. cbn [class_stable].
  split; [apply lit_i_stable|]. split; [exact is_space_lower|].
  split; [exact is_char_dollar_lower|]. split; [exact is_space_lower|].
  apply amount_stable.
Qed.

Lemma due_stable : class_stable lower_char re_due.
Proof.
  unfold re_due, star, opt. cbn [class_stable].
  split; [split; apply lit_i_stable|]. split; [exact is_space_lower|].
  split; [exact is_char_dollar_lower|]. split; [exact is_space_lower|].
  apply amount_stable.
Qed.

Lemma lower_fixed_amount_char c :
  is_digit c || is_char "," c || is_char "." c = true -> lower_char c = c.
Proof.
  destruct c as [[] [] [] [] [] [] [] []]; intros H; try reflexivity;
    discriminate H.
Qed.

Lemma lower_fixed s :
  forallb (fun c => is_digit c || is_char "," c || is_char "." c) s = true ->
  map lower_char s = s.
Proof.
  induction s as [|c s IH]; simpl; auto.
  intros H. apply andb_true_iff in H as [Hc H].
  now rewrite (lower_fixed_amount_char _ Hc), IH.
Qed.

Lemma forallb_weaken (p q : ascii -> bool) s :
  (forall c, p c = true -> q c = true) ->
  forallb p s = true -> forallb q s = true.
Proof.
  intros H. induction s as [|c s IH]; simpl; auto.
  intros Hs. apply andb_true_iff in Hs as [Hc Hs].
  now rewrite (H c Hc), IH.
Qed.

Lemma amount_chars g :
  lang re_amount g ->
  forallb (fun c => is_digit c || is_char "," c || is_char "." c) g = true.
Proof.
  unfold re_amount, plus, times. intros H.
  inversion H as [| | |? ? s1 s23 H1 H23| | |]; subst.
  inversion H23 as [| | |? ? s2 s3 H2 H3| | |]; subst.
  inversion H2 as [|? x Hx| | | | |]; subst.
  inversion H1 as [| |? ? ? ? Hall1 _ _| | | |]; subst.
  inversion H3 as [| |? ? ? ? Hall3 _ _| | | |]; subst.
  rewrite !forallb_app. apply andb_true_iff. split; [|apply andb_true_iff; split].
  - revert Hall1. apply forallb_weaken. intros c Hc.
    apply orb_true_iff. left. exact Hc.
  - cbn [forallb]. rewrite andb_true_r. apply orb_true_iff. right. exact Hx.
  - revert Hall3. apply forallb_weaken. intros c Hc. now rewrite Hc.
Qed.

(** X17: the total does not depend on the casing of the text: the labels
    are matched in any casing and the amount holds no letter. *)
Theorem total_ignores_case (text : jsstring) :
  extractTotal (toLowerCase text) = extractTotal text.
Proof.
  unfold extractTotal, toLowerCase.
  rewrite (re_match_map lower_char re_total text total_stable).
  destruct (re_match re_total text) as [[m c]|] eqn:E; cbn [option_map fst snd].
  - apply (re_match_Some (fun n g => n = 1 -> lang re_amount g)) in E
      as (_ & _ & _ & _ & _ & Hc & _).
    + rewrite capture_map. destruct (capture 1 c) as [g|] eqn:Eg; [|reflexivity].
      cbn [option_map]. specialize (Hc 1 g Eg eq_refl).
      now rewrite (lower_fixed _ (amount_chars Hc)).
    + simpl. intros k r' g [Hi|[]] HL _. now inversion Hi; subst.
  - rewrite (re_match_map lower_char re_due text due_stable).
    destruct (re_match re_due text) as [[m c]|] eqn:E';
      cbn [option_map fst snd]; [|reflexivity].
    apply (re_match_Some (fun n g => n = 2 -> lang re_amount g)) in E'
      as (_ & _ & _ & _ & _ & Hc & _).
    + rewrite capture_map. destruct (capture 2 c) as [g|] eqn:Eg; [|reflexivity].
      cbn [option_map]. specialize (Hc 2 g Eg eq_refl).
      now rewrite (lower_fixed _ (amount_chars Hc)).
    + simpl. intros k r' g [Hi|[Hi|[]]] HL Hn.
      * inversion Hi; subst; discriminate.
      * now inversion Hi; subst.
Qed.

(** ** Lines *)

Lemma split_lines_aux_last l acc :
  ~ In "010"%char l -> split_lines_aux l acc = [rev acc ++ l].
Proof.
  revert acc; induction l as [|x l IH]; intros acc H.
  - simpl. now rewrite app_nil_r.
  - cbn [split_lines_aux].
    assert (Hx : is_char "010" x = false).
    { unfold is_char. apply Ascii.eqb_neq. intros E. apply H. now left. }
    rewrite Hx.
    assert (Hl : ~ In "010"%char l) by (intros Hin; apply H; now right).
    destruct l as [|y l'].
    + simpl; rewrite <- ?app_assoc; reflexivity.
    + assert (Hy : is_char "010" y = false).
      { unfold is_char. apply Ascii.eqb_neq. intros E. apply Hl. now left. }
      rewrite Hy, andb_false_r. rewrite (IH (x :: acc) Hl).
      simpl; rewrite <- ?app_assoc; reflexivity.
Qed.

Lemma split_lines_aux_piece l rest acc :
  one_line l ->
  split_lines_aux (l ++ "010"%char :: rest) acc
  = (rev acc ++ l) :: split_lines_aux rest [].
Proof.
  revert acc; induction l as [|x l IH]; intros acc [H Hcr].
  - simpl. now rewrite app_nil_r.
  - cbn [app split_lines_aux].
    assert (Hx : is_char "010" x = false).
    { unfold is_char. apply Ascii.eqb_neq. intros E. apply H. now left. }
    rewrite Hx.
    assert (Hl : ~ In "010"%char l) by (intros Hin; apply H; now right).
    destruct l as [|y l'].
    + cbn [app].
      assert (Hc : is_char "013" x = false).
      { unfold is_char. apply Ascii.eqb_neq. intros E.
        apply (Hcr []). now rewrite <- E. }
      rewrite Hc. cbn [andb split_lines_aux].
      change (is_char "010" "010") with true. cbv iota.
      simpl; rewrite <- ?app_assoc; reflexivity.
    + cbn [app].
      assert (Hy : is_char "010" y = false).
      { unfold is_char. apply Ascii.eqb_neq. intros E. apply Hl. now left. }
      rewrite Hy, andb_false_r.
      change (y :: l' ++ "010"%char :: rest)
        with ((y :: l') ++ "010"%char :: rest).
      rewrite (IH (x :: acc)).
      * simpl; rewrite <- ?app_assoc; reflexivity.
      * split; auto. intros l0 E. apply (Hcr (x :: l0)). now rewrite E.
Qed.

Lemma split_lines_join ls :
  ls <> [] -> Forall one_line ls -> split_lines (join nl ls) = ls.
Proof.
  intros Hne Hall. induction Hall as [|l ls Hl Hall IH]; [congruence|].
  destruct ls as [|l' ls'].
  - simpl. unfold split_lines. rewrite split_lines_aux_last; [reflexivity|].
    apply Hl.
  - change (join nl (l :: l' :: ls'))
      with (l ++ "010"%char :: join nl (l' :: ls')).
    unfold split_lines. rewrite split_lines_aux_piece by assumption.
    simpl rev. simpl app at 1. f_equal. apply IH. discriminate.
Qed.

Lemma trim_start_head s c t : trim_start s = c :: t -> is_space c = false.
Proof.
  induction s as [|x s IH]; simpl; [discriminate|].
  destruct (is_space x) eqn:E; auto. intros H; inversion H; subst. exact E.
Qed.

Lemma trim_start_idem s : trim_start (trim_start s) = trim_start s.
Proof.
  destruct (trim_start s) as [|c t] eqn:E; [reflexivity|].
  simpl. now rewrite (trim_start_head _ E).
Qed.

Lemma trim_idempotent s : trim (trim s) = trim s.
Proof.
  unfold trim at 1.
  assert (Hs : trim_start (trim s) = trim s).
  { change (trim s) with (trim_end (trim_start s)).
    destruct (trim_end_prefix (trim_start s)) as [r Hr].
    destruct (trim_end (trim_start s)) as [|c v] eqn:E; [reflexivity|].
    simpl. simpl in Hr. rewrite (trim_start_head _ Hr). reflexivity. }
  rewrite Hs. unfold trim. now rewrite rev_involutive, trim_start_idem.
Qed.

Lemma in_trim_start c s : In c (trim_start s) -> In c s.
Proof.
  induction s as [|x s IH]; simpl; auto.
  destruct (is_space x); auto.
Qed.

Lemma in_trim c s : In c (trim s) -> In c s.
Proof.
  unfold trim. intros H. apply in_rev in H. apply in_trim_start in H.
  apply in_rev in H. now apply in_trim_start in H.
Qed.

Lemma trim_no_final_cr s l0 : trim s <> l0 ++ ["013"%char].
Proof.
  unfold trim. intros E.
  assert (E' : trim_start (rev (trim_start s)) = "013"%char :: rev l0).
  { rewrite <- (rev_involutive (trim_start (rev (trim_start s)))), E.
    now rewrite rev_app_distr. }
  apply trim_start_head in E'. discriminate.
Qed.

Lemma split_lines_aux_no_lf n :
  forall s acc, length s <= n -> ~ In "010"%char acc ->
  Forall (fun p => ~ In "010"%char p) (split_lines_aux s acc).
Proof.
  induction n as [|n IH]; intros s acc Hn Hacc.
  - destruct s; [|simpl in Hn; lia]. simpl. constructor; auto.
    intros H. apply Hacc. now apply in_rev.
  - destruct s as [|x s]; cbn [split_lines_aux].
    + constructor; auto. intros H. apply Hacc. now apply in_rev.
    + assert (Hrev : ~ In "010"%char (rev acc)).
      { intros H. apply Hacc. now apply in_rev. }
      simpl in Hn. destruct (is_char "010" x) eqn:Ex.
      * constructor; auto. apply IH; [lia|auto].
      * assert (Hx : ~ In "010"%char (x :: acc)).
        { intros [E|H]; [|auto]. subst x. discriminate Ex. }
        destruct s as [|y s'].
        -- apply IH; [simpl; lia|auto].
        -- destruct (is_char "013" x && is_char "010" y).
           ++ constructor; auto. apply IH; [simpl in *; lia|auto].
           ++ apply IH; [simpl in *; lia|auto].
Qed.

(** The lines of a text: trimmed, not empty, in one piece. *)
Lemma lines_of_shape text :
  Forall (fun l => l <> [] /\ trim l = l /\ one_line l) (lines_of text).
Proof.
  apply Forall_forall. intros l Hl. unfold lines_of in Hl.
  apply filter_In in Hl as [Hl Hne]. apply in_map_iff in Hl as (x & <- & Hx).
  split; [now destruct (trim x)|]. split; [apply trim_idempotent|].
  split; [|apply trim_no_final_cr].
  intros Hin. apply in_trim in Hin.
  pose proof (@split_lines_aux_no_lf (length text) text [] (le_n _)
                                     (fun H => H)) as Hall.
  rewrite Forall_forall in Hall. exact (Hall x Hx Hin).
Qed.

Lemma lines_of_join ls :
  Forall (fun l => l <> [] /\ trim l = l /\ one_line l) ls ->
  lines_of (join nl ls) = ls.
Proof.
  intros Hall. destruct ls as [|l ls]; [reflexivity|].
  unfold lines_of. rewrite split_lines_join; [|discriminate|].
  - induction Hall as [|x xs (Hne & Ht & _) Hall IH]; [reflexivity|].
    cbn [map filter]. rewrite Ht.
    destruct x; [congruence|]. cbn [is_empty negb]. now rewrite IH.
  - eapply Forall_impl; [|exact Hall]. intros x (_ & _ & H). exact H.
Qed.

Lemma filter_idempotent {A : Type} (p : A -> bool) l :
  filter p (filter p l) = filter p l.
Proof.
  induction l as [|x l IH]; simpl; auto.
  destruct (p x) eqn:E; simpl; [rewrite E|]; now rewrite ?IH.
Qed.

(** X18: the paint lines kept as notes can be read back: splitting the
    result into lines gives exactly the lines of the text that mention
    "paint", trimmed and in order, and filtering the result again changes
    nothing. *)
Theorem paint_lines_round_trip (text : jsstring) :
  lines_of (extractPaintLinesFallback text)
  = filter (re_test re_paint) (lines_of text) /\
  extractPaintLinesFallback (extractPaintLinesFallback text)
  = extractPaintLinesFallback text.
Proof.
  assert (H : lines_of (extractPaintLinesFallback text)
              = filter (re_test re_paint) (lines_of text)).
  { unfold extractPaintLinesFallback. apply lines_of_join.
    apply Forall_forall. intros l Hl. apply filter_In in Hl as [Hl _].
    pose proof (lines_of_shape text) as Hall.
    rewrite Forall_forall in Hall. auto. }
  split; [exact H|].
  unfold extractPaintLinesFallback at 1. rewrite H.
  now rewrite filter_idempotent.
Qed.

(** ** The older supplier scan *)

Lemma part2_supplier_find text :
  Part2.extractSupplier text
  = Ok (Some match find Part2.accepts (firstn 10 (lines_of text)) with
             | Some l => l
             | None => hd (str "") (lines_of text)
             end).
Proof.
  unfold Part2.extractSupplier, for_range.
  destruct (lines_of text) as [|l0 ls] eqn:El; [reflexivity|].
  replace (len (l0 :: ls) =? 0)%Z with false
    by (symmetry; apply Z.eqb_neq; unfold len; simpl length; lia).
  rewrite (@loop_from_find _ (l0 :: ls) Part2.accepts _ _ 0).
  - cbn [bind skipn]. unfold len.
    replace (Z.to_nat (Z.min (Z.of_nat (length (l0 :: ls))) 10 - 0))
      with (Nat.min 10 (length (l0 :: ls))) by lia.
    rewrite <- firstn_firstn, firstn_all.
    destruct (find Part2.accepts _); reflexivity.
  - intros i raw E. rewrite E. cbn [bind receiver]. unfold Part2.accepts.
    destruct (Part2.skip_line (toLowerCase raw)); cbn [negb andb]; auto.
    destruct (Part2.letters raw <? 4)%Z; cbn [negb andb]; auto.
    destruct (Part2.mostly_digits raw); reflexivity.
  - unfold len. lia.
Qed.

(** X19: the older supplier scan always answers with a string, and with a
    line of the document whenever the document has a non-empty line: the
    first accepted line among the first ten, the first line of the document
    when none is accepted.  Its answer is empty for the empty document
    only. *)
Theorem part2_supplier_never_empty (text : jsstring) :
  exists s,
    Part2.extractSupplier text = Ok (Some s) /\
    (lines_of text = [] -> s = str "") /\
    (lines_of text <> [] -> s <> str "" /\ In s (lines_of text)) /\
    (forall l, find Part2.accepts (firstn 10 (lines_of text)) = Some l ->
               s = l) /\
    (find Part2.accepts (firstn 10 (lines_of text)) = None ->
     s = hd (str "") (lines_of text)).
Proof.
  rewrite part2_supplier_find. eexists. split; [reflexivity|].
  pose proof (lines_of_shape text) as Hall. rewrite Forall_forall in Hall.
  split; [|split; [|split]].
  - intros E. rewrite E. reflexivity.
  - intros Hne.
    assert (Hin : In match find Part2.accepts (firstn 10 (lines_of text)) with
                     | Some l => l
                     | None => hd (str "") (lines_of text)
                     end (lines_of text)).
    { destruct (find Part2.accepts _) as [l|] eqn:E.
      - apply find_some in E as [Hl _].
        rewrite <- (firstn_skipn 10 (lines_of text)). apply in_or_app. now left.
      - destruct (lines_of text); [congruence|]. now left. }
    split; [|exact Hin]. apply (Hall _ Hin).
  - intros l ->. reflexivity.
  - intros ->. reflexivity.
Qed.

Lemma part2_supplier_never_empty_witness :
  lines_of (str "Invoice #1807583") <> [] /\
  Part2.extractSupplier (str "Invoice #1807583")
  = Ok (Some (str "Invoice #1807583")) /\
  extractSupplier (str "Invoice #1807583") = Ok (str "").
Proof.
  assert (H : lines_of (str "Invoice #1807583") <> []).
  { vm_compute. discriminate. }
  split; [exact H|]. split; [|vm_compute; reflexivity].
  destruct (part2_supplier_never_empty (str "Invoice #1807583"))
    as (s & Hs & _ & _ & _ & Hn).
  rewrite Hs. f_equal. f_equal. apply Hn. vm_compute. reflexivity.
Defined.
